(** * react-crud-hook: the [useCrud] hook of [src/CrudHook/index.tsx]

    The module under verification is a thin adapter.  Its own code consists of
    the helper [assign] and the hook [useCrud]; everything else it touches is
    foreign: the JavaScript object model ([Object.defineProperties],
    [Object.getOwnPropertyDescriptors], property reads and writes), React's
    hooks ([useContext], [useState], [useMemo]), the [Record] class of
    [resma] and the manager object of [lemon-curd].

    The embedding follows that split.  JavaScript objects live in a heap
    (a [gmap] from locations to objects whose own properties are a [gmap]
    from keys to property descriptors); the object model and React's hooks are
    written out as executable definitions after ECMA-262 and React's
    documentation; [resma]'s [Record] constructor and every other foreign
    function are parameters of the development, so that each theorem holds
    for whatever those libraries do. *)

From stdpp Require Import base option list strings pretty gmap fin_maps.

(** ** Values, property descriptors and objects *)

Definition loc := positive.

(** A number is carried as the bit pattern of its binary64 representation,
    all NaNs being one pattern, so that [SameValue] on numbers is equality. *)
Inductive val :=
  | VUndef
  | VNull
  | VBool (b : bool)
  | VNum (bits : N)
  | VStr (s : string)
  | VRef (l : loc).

#[global] Instance val_eq_dec : EqDecision val.
Proof. solve_decision. Defined.

(** [Object.is] / SameValue. *)
Definition same_value (a b : val) : bool := bool_decide (a = b).

Inductive desc :=
  | Data (value : val) (writable enumerable configurable : bool)
  | Accessor (getter setter : val) (enumerable configurable : bool).

#[global] Instance desc_eq_dec : EqDecision desc.
Proof. solve_decision. Defined.

Definition configurable (d : desc) : bool :=
  match d with Data _ _ _ c => c | Accessor _ _ _ c => c end.

Definition enumerable (d : desc) : bool :=
  match d with Data _ _ e _ => e | Accessor _ _ e _ => e end.

(** The function objects the program can meet.  [CSave] and [CDelete] are the
    two closures [useCrud] creates, with the variables they capture;
    [CSetState] is the state setter React hands out from [useState];
    [CExtern] is any function whose body lies outside this module. *)
Inductive code :=
  | CSave (crudManager : val) (CrudRecord : loc)
  | CDelete (crudManager : val) (CrudRecord : loc)
  | CSetState
  | CExtern (id : N).

#[global] Instance code_eq_dec : EqDecision code.
Proof. solve_decision. Defined.

(** An ordinary object (arrays, proxies and other exotic objects are not
    modelled).  The order of the keys is not recorded: nothing in the module
    enumerates keys in an observable order.  Symbol keys and the own
    properties [length], [name] and [prototype] of function objects are left
    out, the module never reads them. *)
Record obj := Obj {
  props : gmap string desc;
  proto : val;
  extensible : bool;
  callee : option code
}.

Abbreviation heap := (gmap loc obj).

(** The intrinsic prototypes of the realm. *)
Definition ObjectPrototype : loc := 1%positive.
Definition FunctionPrototype : loc := 2%positive.
Definition StringPrototype : loc := 3%positive.
Definition NumberPrototype : loc := 4%positive.
Definition BooleanPrototype : loc := 5%positive.

Definition empty_object : obj :=
  {| props := ∅; proto := VRef ObjectPrototype; extensible := true; callee := None |}.

Definition function_object (c : code) : obj :=
  {| props := ∅; proto := VRef FunctionPrototype; extensible := true; callee := Some c |}.

Definition with_props (o : obj) (ps : gmap string desc) : obj :=
  {| props := ps; proto := proto o; extensible := extensible o; callee := callee o |}.

(** ** The state of one component instance (React)

    The hook is called once per render of the component that uses it.  React
    keeps, per instance, the cell of [useState] (the state and the setter,
    created at mount), the cell of [useMemo] (the cached value and the
    dependencies it was computed for), the queue of state updates not yet
    rendered, and whether a render has been scheduled. *)
Record fiber := Fiber {
  state_cell : option (val * loc);
  memo_cell : option (val * list val);
  queue : list val;
  scheduled : bool
}.

Record world := World {
  heap_of : heap;
  fiber_of : fiber
}.

Definition unmounted : fiber :=
  {| state_cell := None; memo_cell := None; queue := []; scheduled := false |}.

(** ** Outcomes

    A computation returns, throws, or is stuck.  [Stuck] is not a JavaScript
    result: it marks a dangling location or an exhausted call depth. *)
Inductive exn :=
  | TypeError
  | Thrown (v : val).

Inductive outcome (A : Type) :=
  | Ok (a : A)
  | Throw (e : exn)
  | Stuck.
Arguments Ok {A} a.
Arguments Throw {A} e.
Arguments Stuck {A}.

Definition M (A : Type) : Type := world → outcome (A * world).

Definition ret {A} (a : A) : M A := λ w, Ok (a, w).
Definition bind {A B} (m : M A) (k : A → M B) : M B :=
  λ w, match m w with
       | Ok (a, w') => k a w'
       | Throw e => Throw e
       | Stuck => Stuck
       end.
Definition throw {A} (e : exn) : M A := λ _, Throw e.
Definition stuck {A} : M A := λ _, Stuck.

Notation "'let*' x ':=' m 'in' k" := (bind m (λ x, k))
  (at level 10, x pattern, m at level 100, k at level 200).
Notation "m ';;;' k" := (bind m (λ _, k))
  (at level 100, k at level 200, right associativity).

Definition get_heap : M heap := λ w, Ok (heap_of w, w).
Definition get_fiber : M fiber := λ w, Ok (fiber_of w, w).
Definition put_fiber (f : fiber) : M unit :=
  λ w, Ok (tt, {| heap_of := heap_of w; fiber_of := f |}).
Definition put_object (l : loc) (o : obj) : M unit :=
  λ w, Ok (tt, {| heap_of := <[l := o]> (heap_of w); fiber_of := fiber_of w |}).

(** Reading an object; a location outside the heap cannot arise in a run. *)
Definition read_object (l : loc) : M obj :=
  λ w, match heap_of w !! l with Some o => Ok (o, w) | None => Stuck end.

(** Allocation takes a location the heap does not use. *)
Definition alloc (o : obj) : M loc :=
  λ w, let l := fresh (dom (heap_of w)) in
       Ok (l, {| heap_of := <[l := o]> (heap_of w); fiber_of := fiber_of w |}).

(** ** The object model (ECMA-262) *)

Definition typeof (h : heap) (v : val) : string :=
  match v with
  | VUndef => "undefined"
  | VNull => "object"
  | VBool _ => "boolean"
  | VNum _ => "number"
  | VStr _ => "string"
  | VRef l =>
      match h !! l with
      | Some o => match callee o with Some _ => "function" | None => "object" end
      | None => "object"
      end
  end.

(** The binary64 pattern of a natural number below 2^53. *)
Definition double_of_N (n : N) : N :=
  if (n =? 0)%N then 0%N
  else let e := N.log2 n in
       (N.shiftl (1023 + e) 52 + N.shiftl n (52 - e) mod 2 ^ 52)%N.

(** The own properties of the String object that [ToObject] wraps around a
    string primitive: one read-only property per character and [length]. *)
Fixpoint string_chars (i : N) (s : string) : gmap string desc :=
  match s with
  | EmptyString => ∅
  | String c s' =>
      <[pretty i := Data (VStr (String c EmptyString)) false true false]>
        (string_chars (i + 1) s')
  end.

Definition string_props (s : string) : gmap string desc :=
  <["length" := Data (VNum (double_of_N (N.of_nat (String.length s)))) false false false]>
    (string_chars 0 s).

(** [Object.getOwnPropertyDescriptors(v)]: [ToObject] throws on [undefined]
    and [null]; boolean and number wrappers have no own property.  The
    descriptors object it returns is fresh and is consumed at once by
    [Object.defineProperties], so it is kept as a map and not put in the
    heap; each descriptor is then read back as it was written, which is what
    happens when [Object.prototype] has no property named after a
    descriptor attribute. *)
Definition getOwnPropertyDescriptors (v : val) : M (gmap string desc) :=
  match v with
  | VUndef | VNull => throw TypeError
  | VBool _ | VNum _ => ret ∅
  | VStr s => ret (string_props s)
  | VRef l => let* o := read_object l in ret (props o)
  end.

(** ValidateAndApplyPropertyDescriptor for a complete descriptor [d] against
    an existing property [current]: may [d] replace it? *)
Definition redefinable (current d : desc) : bool :=
  if configurable current then true
  else
    negb (configurable d)
    && bool_decide (enumerable d = enumerable current)
    && match current, d with
       | Data v w _ _, Data v' w' _ _ =>
           if w then true else negb w' && same_value v' v
       | Accessor g s _ _, Accessor g' s' _ _ =>
           same_value g' g && same_value s' s
       | _, _ => false
       end.

(** DefinePropertyOrThrow on an ordinary object. *)
Definition defineProperty (l : loc) (k : string) (d : desc) : M unit :=
  let* o := read_object l in
  match props o !! k with
  | None =>
      if extensible o then put_object l (with_props o (<[k := d]> (props o)))
      else throw TypeError
  | Some c =>
      if redefinable c d then put_object l (with_props o (<[k := d]> (props o)))
      else throw TypeError
  end.

Fixpoint define_all (l : loc) (ds : list (string * desc)) : M unit :=
  match ds with
  | [] => ret tt
  | (k, d) :: ds' => defineProperty l k d ;;; define_all l ds'
  end.

(** [Object.defineProperties(ob, ds)] *)
Definition defineProperties (ob : val) (ds : gmap string desc) : M val :=
  match ob with
  | VRef l => define_all l (map_to_list ds) ;;; ret ob
  | _ => throw TypeError
  end.

(** ** [assign]

<<
const assign = (ob: any, ...o: any) => {
  o.forEach((obj: any) =>{if (typeof obj !== 'undefined')
    Object.defineProperties(ob, Object.getOwnPropertyDescriptors(obj))})
  return ob
}
>> *)
Fixpoint assign_forEach (ob : val) (o : list val) : M unit :=
  match o with
  | [] => ret tt
  | obj :: rest =>
      let* h := get_heap in
      (if bool_decide (typeof h obj ≠ "undefined") then
         let* ds := getOwnPropertyDescriptors obj in
         defineProperties ob ds ;;; ret tt
       else ret tt) ;;;
      assign_forEach ob rest
  end.

Definition assign (ob : val) (o : list val) : M val :=
  assign_forEach ob o ;;; ret ob.

(** The first property named [k] on the prototype chain that starts at [o].
    A chain of a well-formed heap is acyclic, so [size h] steps reach its
    end. *)
Fixpoint find_prop (n : nat) (h : heap) (o : val) (k : string) : outcome (option desc) :=
  match o with
  | VNull => Ok None
  | VRef l =>
      match n with
      | O => Stuck
      | S n' =>
          match h !! l with
          | None => Stuck
          | Some ob =>
              match props ob !! k with
              | Some d => Ok (Some d)
              | None => find_prop n' h (proto ob) k
              end
          end
      end
  | _ => Stuck
  end.

(** Property lookup for a member expression [v.k]: [undefined] and [null]
    have no properties; a primitive is looked up through its wrapper. *)
Definition get_property (h : heap) (v : val) (k : string) : outcome (option desc) :=
  match v with
  | VUndef | VNull => Throw TypeError
  | VRef _ => find_prop (size h) h v k
  | VStr s =>
      match string_props s !! k with
      | Some d => Ok (Some d)
      | None => find_prop (size h) h (VRef StringPrototype) k
      end
  | VNum _ => find_prop (size h) h (VRef NumberPrototype) k
  | VBool _ => find_prop (size h) h (VRef BooleanPrototype) k
  end.

Definition is_callable (h : heap) (v : val) : bool :=
  bool_decide (typeof h v = "function").

(** ** Contexts

    The hook reads one context, [CrudContext], and uses its value as the
    manager. *)
Record contexts := Contexts {
  CrudContext : val;
  StoreContext : val
}.

(** Modelled from the spec: [src/Provider] (the module that declares
    [CrudContext] and [CrudProvider]) is not among the sources.  The spec says
    that the provider distributes a manager and a store; the hook uses the
    value of [CrudContext] as the manager, so the manager is that context's
    value and the store travels beside it. *)
Definition CrudProvider (manager store : val) : contexts :=
  {| CrudContext := manager; StoreContext := store |}.

(** ** React: the state setter

    After React's documentation of the [set] function of [useState]: the
    update is queued and a render is scheduled, unless the next state is
    given as a value identical ([Object.is]) to the current state while no
    other update is pending, in which case React skips the render.  An
    update given as a function is always queued here (React may also skip
    it, when the function already returns the current state). *)
Definition enqueue (h : heap) (f : fiber) (action : val) : fiber :=
  let bail :=
    match queue f, state_cell f with
    | [], Some (s, _) => negb (is_callable h action) && same_value action s
    | _, _ => false
    end in
  if bail then f
  else {| state_cell := state_cell f; memo_cell := memo_cell f;
          queue := queue f ++ [action]; scheduled := true |}.

Definition dispatchAction (action : val) : M unit :=
  λ w, Ok (tt, {| heap_of := heap_of w;
                  fiber_of := enqueue (heap_of w) (fiber_of w) action |}).

Definition dispatch_all (actions : list val) : M unit :=
  λ w, Ok (tt, {| heap_of := heap_of w;
                  fiber_of := foldl (enqueue (heap_of w)) (fiber_of w) actions |}).

(** ** Foreign code

    What lies outside the module is a parameter.  A foreign function receives
    its receiver, its arguments and the heap; it returns a value and a heap,
    or throws.  It cannot reach the component instance: what it can do is
    call the function values it holds.  The calls it makes to functions that
    are not its own (a listener it was given) are returned beside its
    result, each as the function called and the arguments, in order; they
    are made, with [undefined] as receiver, on the heap the function left,
    and an exception of a callback is an exception of the function.
    [Record_new] is [new Record(...)] of [resma]; a constructor has one
    function that is not its own, the listener it is passed, and returns the
    values it called that listener with while constructing. *)
Record foreign := Foreign {
  extern : N → val → list val → heap → outcome (val * heap * list (val * list val));
  Record_new : list val → heap → outcome (loc * heap * list val)
}.

(** The callbacks of a foreign function, given how functions are called. *)
Fixpoint call_back (call : val → val → list val → M val) (calls : list (val * list val))
    : M unit :=
  match calls with
  | [] => ret tt
  | (f, args) :: rest => call f VUndef args ;;; call_back call rest
  end.

(** Running a foreign function from the current world. *)
Definition run_foreign {A} (call : val → val → list val → M val)
    (run : heap → outcome (A * heap * list (val * list val))) : M A :=
  λ w, match run (heap_of w) with
       | Ok (a, h', calls) =>
           (call_back call calls ;;; ret a) {| heap_of := h'; fiber_of := fiber_of w |}
       | Throw e => Throw e
       | Stuck => Stuck
       end.

(** Running the constructor.  The listener [useCrud] passes is the state
    setter, so each value the constructor called it with is dispatched. *)
Definition construct (run : heap → outcome (loc * heap * list val)) : M loc :=
  λ w, match run (heap_of w) with
       | Ok (l, h', actions) =>
           (dispatch_all actions ;;; ret l) {| heap_of := h'; fiber_of := fiber_of w |}
       | Throw e => Throw e
       | Stuck => Stuck
       end.

Section Hook.
Context (F : foreign).

(** *** Property read and write, given how functions are called *)

(** [v.k] *)
Definition get (call : val → val → list val → M val) (v : val) (k : string) : M val :=
  let* h := get_heap in
  match get_property h v k with
  | Ok None => ret VUndef
  | Ok (Some (Data x _ _ _)) => ret x
  | Ok (Some (Accessor g _ _ _)) =>
      match g with VUndef => ret VUndef | _ => call g v [] end
  | Throw e => throw e
  | Stuck => stuck
  end.

(** [l.k = v] in strict code (OrdinarySet with the object as receiver; a
    rejected write throws). *)
Definition set (call : val → val → list val → M val) (l : loc) (k : string) (v : val) : M unit :=
  let* h := get_heap in
  match find_prop (size h) h (VRef l) k with
  | Stuck => stuck
  | Throw e => throw e
  | Ok (Some (Accessor _ s _ _)) =>
      match s with VUndef => throw TypeError | _ => call s (VRef l) [v] ;;; ret tt end
  | Ok (Some (Data _ false _ _)) => throw TypeError
  | Ok _ =>
      let* o := read_object l in
      match props o !! k with
      | Some (Accessor _ _ _ _) => throw TypeError
      | Some (Data _ w e c) =>
          if w then put_object l (with_props o (<[k := Data v w e c]> (props o)))
          else throw TypeError
      | None =>
          if extensible o
          then put_object l (with_props o (<[k := Data v true true true]> (props o)))
          else throw TypeError
      end
  end.

(** *** Calling a function object

    [n] bounds the depth of nested calls.  The bodies of the two closures of
    [useCrud] are

<<
    return crudManager.save(CrudRecord._record, options)
    return crudManager.delete(CrudRecord._record, options)
>>
    the callee is read first, then the arguments, then the call is made with
    the manager as receiver. *)
Fixpoint call (n : nat) (f this : val) (args : list val) : M val :=
  match n with
  | O => stuck
  | S n' =>
      match f with
      | VRef l =>
          let* o := read_object l in
          match callee o with
          | None => throw TypeError
          | Some (CExtern id) => run_foreign (call n') (extern F id this args)
          | Some CSetState => dispatchAction (nth 0 args VUndef) ;;; ret VUndef
          | Some (CSave crudManager CrudRecord) =>
              let options := nth 0 args VUndef in
              let* save := get (call n') crudManager "save" in
              let* _record := get (call n') (VRef CrudRecord) "_record" in
              call n' save crudManager [_record; options]
          | Some (CDelete crudManager CrudRecord) =>
              let options := nth 0 args VUndef in
              let* delete := get (call n') crudManager "delete" in
              let* _record := get (call n') (VRef CrudRecord) "_record" in
              call n' delete crudManager [_record; options]
          end
      | _ => throw TypeError
      end
  end.

(** [v.k(args)] *)
Definition invoke (n : nat) (v : val) (k : string) (args : list val) : M val :=
  let* f := get (call n) v k in
  call n f v args.

(** *** React: [useContext], [useState], [useMemo] *)

Definition useContext (c : contexts → val) (env : contexts) : M val :=
  ret (c env).

(** The queued updates are applied in order; an update given as a function
    is called on the pending state. *)
Fixpoint reduce_queue (n : nat) (s : val) (q : list val) : M val :=
  match q with
  | [] => ret s
  | a :: q' =>
      let* h := get_heap in
      let* s' := (if is_callable h a then call n a VUndef [s] else ret a) in
      reduce_queue n s' q'
  end.

(** [useState(initialState)] with [initialState] a value (the hook passes an
    object literal, never an initialiser function).  At mount the state is
    the argument and the setter is created; afterwards the argument is
    ignored, the queue is consumed and the setter is the same function. *)
Definition useState (n : nat) (initialState : val) : M (val * val) :=
  let* f := get_fiber in
  match state_cell f with
  | None =>
      let* d := alloc (function_object CSetState) in
      put_fiber {| state_cell := Some (initialState, d); memo_cell := memo_cell f;
                   queue := queue f; scheduled := scheduled f |} ;;;
      ret (initialState, VRef d)
  | Some (s, d) =>
      put_fiber {| state_cell := state_cell f; memo_cell := memo_cell f;
                   queue := []; scheduled := scheduled f |} ;;;
      let* s' := reduce_queue n s (queue f) in
      let* f' := get_fiber in
      put_fiber {| state_cell := Some (s', d); memo_cell := memo_cell f';
                   queue := queue f'; scheduled := scheduled f' |} ;;;
      ret (s', VRef d)
  end.

(** [useMemo(nextCreate, deps)]: the cached value is returned when every
    dependency is identical ([Object.is]) to the one it was computed for;
    otherwise [nextCreate] is run and its result cached (React keeps the
    cache between renders of a mounted component). *)
Definition useMemo (nextCreate : M val) (deps : list val) : M val :=
  let recompute :=
    let* v := nextCreate in
    let* f := get_fiber in
    put_fiber {| state_cell := state_cell f; memo_cell := Some (v, deps);
                 queue := queue f; scheduled := scheduled f |} ;;;
    ret v in
  let* f := get_fiber in
  match memo_cell f with
  | Some (v, prevDeps) => if bool_decide (deps = prevDeps) then ret v else recompute
  | None => recompute
  end.

(** ** [useCrud]

<<
export function useCrud (record: IRecord): CrudRecord {
  const crudManager = useContext(CrudContext)
  const [reference, forceRender] = useState({})

  return useMemo(() => {
    const CrudRecord = new Record(record, forceRender) as CrudRecord

    CrudRecord.save = function (options?: Options) {
      return crudManager.save(CrudRecord._record, options)
    }

    CrudRecord.delete = function (options?: Options) {
      return crudManager.delete(CrudRecord._record, options)
    }

    return assign({}, CrudRecord)
  }, [reference, record])
}
>>
    [nextCreate] is the arrow function passed to [useMemo], with the
    variables it captures.  [useCrud] is called with a list of arguments, of
    which it binds the first. *)
Definition nextCreate (n : nat) (crudManager record forceRender : val) : M val :=
  let* CrudRecord := construct (Record_new F [record; forceRender]) in
  let* save := alloc (function_object (CSave crudManager CrudRecord)) in
  set (call n) CrudRecord "save" (VRef save) ;;;
  let* delete := alloc (function_object (CDelete crudManager CrudRecord)) in
  set (call n) CrudRecord "delete" (VRef delete) ;;;
  let* target := alloc empty_object in
  assign (VRef target) [VRef CrudRecord].

Definition useCrud (n : nat) (env : contexts) (arguments : list val) : M val :=
  let record := nth 0 arguments VUndef in
  let* crudManager := useContext CrudContext env in
  let* initialState := alloc empty_object in
  let* (reference, forceRender) := useState n (VRef initialState) in
  useMemo (nextCreate n crudManager record forceRender) [reference; record].

(** One render of the component: React clears the pending-render mark and
    calls the hook. *)
Definition render (n : nat) (env : contexts) (arguments : list val) : M val :=
  let* f := get_fiber in
  put_fiber {| state_cell := state_cell f; memo_cell := memo_cell f;
               queue := queue f; scheduled := false |} ;;;
  useCrud n env arguments.

End Hook.

(** ** A test bench

    Stand-ins for the two libraries, in the manner of the fakes of
    [index.test.tsx]: a manager whose [save] resolves to the record it is
    given and whose [delete] resolves to its options, and a [Record] class
    that keeps its draft in an object of its own, exposes [_record], the
    draft's [name] and a [setAttribute] method as own properties, and calls
    its listener with a new object on every change. *)
Module Bench.

Definition drafts : loc := 6%positive.
Definition setAttribute : loc := 7%positive.
Definition manager : loc := 8%positive.
Definition manager_save : loc := 9%positive.
Definition manager_delete : loc := 10%positive.
Definition fakeRecord : loc := 11%positive.
Definition otherManager : loc := 12%positive.
Definition other_save : loc := 13%positive.
Definition frozen : loc := 14%positive.
Definition store : loc := 15%positive.

Definition method (v : val) : desc := Data v true false true.
Definition field (v : val) : desc := Data v true true true.

Definition intrinsic (p : val) : obj :=
  {| props := ∅; proto := p; extensible := true; callee := None |}.

Definition realm : heap :=
  list_to_map
    [ (ObjectPrototype, intrinsic VNull);
      (FunctionPrototype, intrinsic (VRef ObjectPrototype));
      (StringPrototype, intrinsic (VRef ObjectPrototype));
      (NumberPrototype, intrinsic (VRef ObjectPrototype));
      (BooleanPrototype, intrinsic (VRef ObjectPrototype));
      (drafts, empty_object);
      (setAttribute, function_object (CExtern 3));
      (manager, with_props empty_object
         (<["save" := method (VRef manager_save)]>
            (<["delete" := method (VRef manager_delete)]> ∅)));
      (manager_save, function_object (CExtern 1));
      (manager_delete, function_object (CExtern 2));
      (fakeRecord, with_props empty_object
         (<["type" := field (VStr "company")]> ∅));
      (otherManager, with_props empty_object
         (<["save" := method (VRef other_save)]> ∅));
      (other_save, function_object (CExtern 4));
      (frozen, {| props := <["type" := Data (VStr "ceo") false true false]> ∅;
                  proto := VRef ObjectPrototype;
                  extensible := false; callee := None |});
      (store, empty_object) ].

Definition draft_name (h : heap) : val :=
  match h !! drafts with
  | Some o =>
      match props o !! "name" with
      | Some (Data v _ _ _) => v
      | _ => VStr "exivity"
      end
  | None => VStr "exivity"
  end.

(** The listener an instance, or a copy of its own properties, holds. *)
Definition listener_of (h : heap) (this : val) : val :=
  match this with
  | VRef l =>
      match h !! l with
      | Some o =>
          match props o !! "_listener" with
          | Some (Data v _ _ _) => v
          | _ => VUndef
          end
      | None => VUndef
      end
  | _ => VUndef
  end.

(** [setAttribute(name, value)]: the draft is updated and the listener of
    the receiver is called with a new object. *)
Definition set_draft (this : val) (args : list val) (h : heap)
    : outcome (val * heap * list (val * list val)) :=
  match h !! drafts with
  | Some o =>
      let h1 := <[drafts := with_props o (<["name" := field (nth 1 args VUndef)]> (props o))]> h in
      let token := fresh (dom h1) in
      Ok (this, <[token := empty_object]> h1, [(listener_of h this, [VRef token])])
  | None => Throw TypeError
  end.

Definition new_Record (args : list val) (h : heap) : outcome (loc * heap * list val) :=
  let l := fresh (dom h) in
  let o := with_props (intrinsic VNull)
             (<["_record" := field (nth 0 args VUndef)]>
                (<["_listener" := field (nth 1 args VUndef)]>
                   (<["name" := field (draft_name h)]>
                      (<["setAttribute" := field (VRef setAttribute)]> ∅)))) in
  Ok (l, <[l := o]> h, []).

Definition lib : foreign :=
  {| extern := λ id this args h,
       match id with
       | 1%N => Ok (nth 0 args VUndef, h, [])
       | 2%N => Ok (nth 1 args VUndef, h, [])
       | 3%N => set_draft this args h
       | 4%N => Ok (VStr "other", h, [])
       | _ => Throw TypeError
       end;
     Record_new := new_Record |}.

Definition Wrapper : contexts := CrudProvider (VRef manager) (VRef store).
Definition initial : world := {| heap_of := realm; fiber_of := unmounted |}.

Definition run (m : M val) (w : world) : val * world :=
  match m w with
  | Ok r => r
  | _ => (VUndef, w)
  end.

(** The first render, a call of [setAttribute] on its wrapper, and the
    render that follows. *)
Definition mounted : val * world :=
  run (useCrud lib 5 Wrapper [VRef fakeRecord]) initial.
Definition mutated : val * world :=
  run (invoke lib 5 mounted.1 "setAttribute" [VStr "name"; VStr "Michiel de Vos"]) mounted.2.
Definition rerendered : val * world :=
  run (render lib 5 Wrapper [VRef fakeRecord]) mutated.2.
Definition recomputed : val * world :=
  run (useCrud lib 5 Wrapper [VRef fakeRecord]) mutated.2.

(** After the first render, the provider is given another manager; the
    record and the state are as they were. *)
Definition OtherWrapper : contexts := CrudProvider (VRef otherManager) (VRef store).
Definition stale : val * world :=
  run (useCrud lib 5 OtherWrapper [VRef fakeRecord]) mounted.2.

End Bench.

(** ** Notions used in the statements *)

(** May [k := d] be defined on an object with own properties [p]? *)
Definition may_define (p : gmap string desc) (ext : bool) (k : string) (d : desc) : bool :=
  match p !! k with
  | None => ext
  | Some c => redefinable c d
  end.

Fixpoint definable (p : gmap string desc) (ext : bool) (ds : list (string * desc)) : bool :=
  match ds with
  | [] => true
  | (k, d) :: rest => may_define p ext k d && definable (<[k := d]> p) ext rest
  end.

Definition insert_all (p : gmap string desc) (ds : list (string * desc)) : gmap string desc :=
  foldl (λ m kd, <[kd.1 := kd.2]> m) p ds.

Definition all_configurable (p : gmap string desc) : Prop :=
  map_Forall (λ _ d, configurable d = true) p.

(** A source whose descriptors can be copied over anything configurable and
    overridden afterwards: not [null], and without non-configurable own
    properties (which a string primitive always has). *)
Definition copyable (h : heap) (s : val) : Prop :=
  match s with
  | VNull | VStr _ => False
  | VRef l => ∃ o, h !! l = Some o ∧ all_configurable (props o)
  | _ => True
  end.

(** What a source contributes to the target.  The target itself, given as a
    source, contributes nothing new. *)
Definition source_props (h : heap) (target : loc) (s : val) : gmap string desc :=
  match s with
  | VRef l =>
      if decide (l = target) then ∅
      else match h !! l with Some o => props o | None => ∅ end
  | _ => ∅
  end.

(** The own properties of the target after the sources were merged in, in
    order; [∪] prefers its left operand, so a later source wins. *)
Definition merged (h : heap) (target : loc) (p : gmap string desc) (o : list val) : gmap string desc :=
  foldl (λ acc s, source_props h target s ∪ acc) p o.

#[global] Instance exn_eq_dec : EqDecision exn.
Proof. solve_decision. Defined.

#[global] Instance outcome_eq_dec {A} `{EqDecision A} : EqDecision (outcome A).
Proof. solve_decision. Defined.

(** An object on which [save] and [delete] can be created by assignment:
    it is extensible and neither it nor its prototype chain has a property
    of either name. *)
Definition plain_record (h : heap) (l : loc) : bool :=
  match h !! l with
  | Some o =>
      extensible o
      && bool_decide (find_prop (size h) h (VRef l) "save" = Ok None)
      && bool_decide (find_prop (size h) h (VRef l) "delete" = Ok None)
  | None => false
  end.

(** What is assumed of [resma]: an instance of [Record] is such an object
    (the interface [CrudRecord] extends [Record] with [save] and
    [delete]) ... *)
Definition Record_plain (F : foreign) : Prop :=
  ∀ args h l h' actions,
    Record_new F args h = Ok (l, h', actions) → plain_record h' l = true.

(** ... and [new] yields an object that did not exist before. *)
Definition Record_fresh (F : foreign) : Prop :=
  ∀ args h l h' actions,
    Record_new F args h = Ok (l, h', actions) → h !! l = None.

(** Foreign code that leaves the object at [p] as it is. *)
Definition foreign_keeps (F : foreign) (p : loc) : Prop :=
  (∀ id this args h v h' actions o,
      extern F id this args h = Ok (v, h', actions) →
      h !! p = Some o → h' !! p = Some o)
  ∧ (∀ args h l h' actions o,
      Record_new F args h = Ok (l, h', actions) →
      h !! p = Some o → h' !! p = Some o).

(** The call the two methods are said to make:
    [manager.method(CrudRecord._record, options)], at call depth [n]. *)
Definition manager_call (F : foreign) (n : nat) (manager : val) (method : string)
    (CrudRecord : loc) (options : val) : M val :=
  let* f := get (call F n) manager method in
  let* r := get (call F n) (VRef CrudRecord) "_record" in
  call F n f manager [r; options].

(** [o.k] is a data property (own or inherited) holding a function whose
    body is foreign code [id]. *)
Definition foreign_method (h : heap) (o : val) (k : string) (id : N) : Prop :=
  ∃ f fo wr en cf,
    get_property h o k = Ok (Some (Data (VRef f) wr en cf))
    ∧ h !! f = Some fo ∧ callee fo = Some (CExtern id).

(** [o.k] is a data property (own or inherited) holding [x]. *)
Definition data_field (h : heap) (o : val) (k : string) (x : val) : Prop :=
  ∃ wr en cf, get_property h o k = Ok (Some (Data x wr en cf)).

(** The heap in which [nextCreate] leaves its wrapper: [h] is the heap the
    [Record] constructor returned, [h'] the heap after the wrapper was made.
    The instance got [save] and [delete] as data properties holding the two
    new closures, which capture the manager and the instance; the wrapper is
    a new plain object with the same own properties as the instance; no
    other object of [h] changed. *)
Definition wraps (manager : val) (h h' : heap) (CrudRecord wrapper : loc) : Prop :=
  ∃ oi save delete,
    let ps := <["delete" := Data (VRef delete) true true true]>
                (<["save" := Data (VRef save) true true true]> (props oi)) in
    h !! CrudRecord = Some oi
    ∧ h !! save = None ∧ h !! delete = None ∧ h !! wrapper = None
    ∧ h' !! save = Some (function_object (CSave manager CrudRecord))
    ∧ h' !! delete = Some (function_object (CDelete manager CrudRecord))
    ∧ h' !! CrudRecord = Some (with_props oi ps)
    ∧ h' !! wrapper = Some (with_props empty_object ps)
    ∧ (∀ l o, h !! l = Some o → l ≠ CrudRecord → h' !! l = Some o).

(** The object at [d] is the state setter React created. *)
Definition setter_at (h : heap) (d : loc) : bool :=
  match h !! d with
  | Some o => bool_decide (callee o = Some CSetState)
  | None => false
  end.

(** The render stored a new entry in the cell of [useMemo]. *)
Definition rebuilds (w w' : world) : Prop :=
  memo_cell (fiber_of w') ≠ memo_cell (fiber_of w).

(** The cells of the two hooks are the same in both worlds. *)
Definition same_cells (w w' : world) : Prop :=
  memo_cell (fiber_of w') = memo_cell (fiber_of w)
  ∧ state_cell (fiber_of w') = state_cell (fiber_of w).

(** The object [o] at [p] is still there. *)
Definition keeps_object (p : loc) (o : obj) (w w' : world) : Prop :=
  heap_of w !! p = Some o → heap_of w' !! p = Some o.

(** The world after [useMemo] stored a new entry. *)
Definition with_memo (w : world) (v : val) (deps : list val) : world :=
  {| heap_of := heap_of w;
     fiber_of := {| state_cell := state_cell (fiber_of w); memo_cell := Some (v, deps);
                    queue := queue (fiber_of w); scheduled := scheduled (fiber_of w) |} |}.

(** ** Notions used in the further properties *)

(** The own properties of a source as [Object.getOwnPropertyDescriptors]
    reads them: those of the object, or of the wrapper of a primitive. *)
Definition own_props_of (h : heap) (s : val) : gmap string desc :=
  match s with
  | VStr x => string_props x
  | VRef l => match h !! l with Some o => props o | None => ∅ end
  | _ => ∅
  end.

(** What a source adds to a target whose own properties are [acc]; the
    target itself, as a source, is read as it is by then. *)
Definition contribution (h : heap) (target : loc) (acc : gmap string desc) (s : val)
    : gmap string desc :=
  match s with
  | VRef l => if decide (l = target) then acc else own_props_of h s
  | _ => own_props_of h s
  end.

Definition merged_all (h : heap) (target : loc) (p : gmap string desc) (o : list val)
    : gmap string desc :=
  foldl (λ acc s, contribution h target acc s ∪ acc) p o.

(** The callback [assign] passes to [forEach], applied to one source. *)
Definition forEach_callback (ob obj : val) : M unit :=
  let* h := get_heap in
  if bool_decide (typeof h obj ≠ "undefined") then
    let* ds := getOwnPropertyDescriptors obj in
    defineProperties ob ds ;;; ret tt
  else ret tt.

Definition is_object (v : val) : bool :=
  match v with VRef _ => true | _ => false end.

(** A value that is not a dangling reference. *)
Definition allocated (h : heap) (s : val) : Prop :=
  match s with VRef l => is_Some (h !! l) | _ => True end.

(** [w'] differs from [w] at most in the own properties of the object [ob],
    none of which is gone. *)
Definition touches_only (ob : val) (w w' : world) : Prop :=
  fiber_of w' = fiber_of w
  ∧ (∀ l, ob ≠ VRef l → heap_of w' !! l = heap_of w !! l)
  ∧ (∀ t, ob = VRef t →
       match heap_of w !! t with
       | Some ot =>
           ∃ ps, heap_of w' !! t = Some (with_props ot ps)
                 ∧ ∀ k, is_Some (props ot !! k) → is_Some (ps !! k)
       | None => heap_of w' !! t = None
       end).

(** The function object an own data property [t.k] holds, with its code. *)
Definition method_at (h : heap) (t : loc) (k : string) : option (loc * code) :=
  match h !! t with
  | Some ot =>
      match props ot !! k with
      | Some (Data (VRef f) _ _ _) =>
          match h !! f with
          | Some fo => match callee fo with Some c => Some (f, c) | None => None end
          | None => None
          end
      | _ => None
      end
  | None => None
  end.

(** [t.k] is an own data property holding the function object at [f],
    whose code is [c]. *)
Definition own_method (h : heap) (t : loc) (k : string) (f : loc) (c : code) : Prop :=
  method_at h t k = Some (f, c).

(** Further stand-ins: a [Record] class whose instances are not extensible,
    a render without a manager in context, a render under a manager that
    has no [delete], and a later render under that manager. *)
Module Edge.

Definition new_sealed_Record (args : list val) (h : heap) : outcome (loc * heap * list val) :=
  let l := fresh (dom h) in
  Ok (l,
      <[l := {| props := <["_record" := Bench.field (nth 0 args VUndef)]> ∅;
                proto := VNull; extensible := false; callee := None |}]> h,
      []).

Definition sealed_lib : foreign :=
  {| extern := extern Bench.lib; Record_new := new_sealed_Record |}.

Definition NoProvider : contexts := {| CrudContext := VUndef; StoreContext := VUndef |}.

Definition orphan : val * world :=
  Bench.run (useCrud Bench.lib 5 NoProvider [VRef Bench.fakeRecord]) Bench.initial.

Definition under_other : val * world :=
  Bench.run (useCrud Bench.lib 5 Bench.OtherWrapper [VRef Bench.fakeRecord]) Bench.initial.

Definition later : val * world :=
  Bench.run (useCrud Bench.lib 5 Bench.OtherWrapper [VRef Bench.fakeRecord]) Bench.mutated.2.

End Edge.

(** * Properties *)

(** ** The monad *)

Lemma bind_Ok {A B} (m : M A) (k : A → M B) w a w' :
  m w = Ok (a, w') → bind m k w = k a w'.
Proof. intros H. unfold bind. by rewrite H. Qed.

Lemma bind_inv {A B} (m : M A) (k : A → M B) w b w' :
  bind m k w = Ok (b, w') → ∃ a w1, m w = Ok (a, w1) ∧ k a w1 = Ok (b, w').
Proof.
  unfold bind. destruct (m w) as [[a w1]| |]; [|done..].
  intros H. by exists a, w1.
Qed.

(** Inversion of one [bind] in a hypothesis. *)
Ltac inv_bind H :=
  let a := fresh "a" in
  let w := fresh "w" in
  let H1 := fresh "H" in
  apply bind_inv in H as (a & w & H1 & H).

Tactic Notation "step_bind" hyp(H) "as" ident(a) ident(w) ident(H1) :=
  apply bind_inv in H as (a & w & H1 & H).

Lemma with_props_id o : with_props o (props o) = o.
Proof. by destruct o. Qed.

Lemma with_props_twice o p q : with_props (with_props o p) q = with_props o q.
Proof. done. Qed.

Lemma world_eta w : {| heap_of := heap_of w; fiber_of := fiber_of w |} = w.
Proof. by destruct w. Qed.

Lemma typeof_undefined h v : typeof h v = "undefined" ↔ v = VUndef.
Proof.
  destruct v as [| | | | |l]; simpl; try (split; (discriminate || congruence)).
  destruct (h !! l) as [o|]; [destruct (callee o)|]; split; discriminate.
Qed.

(** The numbers 1 and 3 as binary64 patterns. *)
Example double_of_N_1 : double_of_N 1 = 4607182418800017408%N.
Proof. reflexivity. Qed.

Example double_of_N_3 : double_of_N 3 = 4613937818241073152%N.
Proof. reflexivity. Qed.

(** ** [Object.defineProperties] *)

Lemma define_all_spec l ds w o :
  heap_of w !! l = Some o →
  define_all l ds w =
    if definable (props o) (extensible o) ds
    then Ok (tt, {| heap_of := <[l := with_props o (insert_all (props o) ds)]> (heap_of w);
                    fiber_of := fiber_of w |})
    else Throw TypeError.
Proof.
  revert w o. induction ds as [|[k d] ds IH]; intros w o Hl; simpl.
  - unfold ret, insert_all. simpl. by rewrite with_props_id, insert_id, world_eta.
  - unfold bind, defineProperty, bind, read_object at 1. rewrite Hl.
    unfold may_define.
    assert (Hstep : ∀ w1, w1 = {| heap_of := <[l := with_props o (<[k := d]> (props o))]> (heap_of w);
                              fiber_of := fiber_of w |} →
              define_all l ds w1 =
              if definable (<[k := d]> (props o)) (extensible o) ds
              then Ok (tt, {| heap_of := <[l := with_props o (insert_all (props o) ((k, d) :: ds))]> (heap_of w);
                              fiber_of := fiber_of w |})
              else Throw TypeError).
    { intros w1 ->.
      rewrite (IH _ (with_props o (<[k := d]> (props o)))); simpl.
      - by rewrite insert_insert_eq.
      - by rewrite lookup_insert_eq. }
    destruct (props o !! k) as [c|].
    + destruct (redefinable c d); simpl; [|done].
      unfold put_object. by apply Hstep.
    + destruct (extensible o) eqn:He; simpl; [|done].
      unfold put_object. by apply Hstep.
Qed.

Lemma redefinable_configurable c d : configurable c = true → redefinable c d = true.
Proof. intros H. unfold redefinable. by rewrite H. Qed.

Lemma definable_configurable p ds :
  all_configurable p →
  Forall (λ kd, configurable kd.2 = true) ds →
  definable p true ds = true.
Proof.
  intros Hp Hds. revert p Hp.
  induction Hds as [|[k d] ds Hd _ IH]; intros p Hp; simpl; [done|].
  apply andb_true_iff. split.
  - unfold may_define. destruct (p !! k) as [c|] eqn:Hk; [|done].
    apply redefinable_configurable. by apply (Hp k).
  - apply IH. by apply map_Forall_insert_2.
Qed.

Lemma definable_fresh p ds :
  NoDup ds.*1 →
  (∀ k, k ∈ ds.*1 → p !! k = None) →
  definable p true ds = true.
Proof.
  revert p. induction ds as [|[k d] ds IH]; intros p Hnd Hp; simpl; [done|].
  apply NoDup_cons in Hnd as [Hk Hnd].
  apply andb_true_iff. split.
  - unfold may_define. rewrite Hp; [done|]. simpl. left.
  - apply IH; [done|]. intros k' Hk'.
    rewrite lookup_insert_ne.
    + apply Hp. simpl. by right.
    + intros ->. by apply Hk.
Qed.

Lemma insert_all_union p ds :
  NoDup ds.*1 → insert_all p ds = list_to_map ds ∪ p.
Proof.
  revert p. induction ds as [|[k d] ds IH]; intros p Hnd.
  - unfold insert_all. simpl. by rewrite (left_id_L ∅ (∪)).
  - apply NoDup_cons in Hnd as [Hk Hnd].
    change (insert_all p ((k, d) :: ds)) with (insert_all (<[k := d]> p) ds).
    rewrite IH by done. simpl.
    rewrite <- insert_union_l.
    symmetry. apply insert_union_r.
    by apply not_elem_of_list_to_map_1.
Qed.

Lemma insert_all_map_to_list p (m : gmap string desc) :
  insert_all p (map_to_list m) = m ∪ p.
Proof.
  rewrite insert_all_union by apply NoDup_fst_map_to_list.
  by rewrite list_to_map_to_list.
Qed.

Lemma defineProperties_spec l (m : gmap string desc) w o :
  heap_of w !! l = Some o →
  definable (props o) (extensible o) (map_to_list m) = true →
  defineProperties (VRef l) m w =
    Ok (VRef l, {| heap_of := <[l := with_props o (m ∪ props o)]> (heap_of w);
                   fiber_of := fiber_of w |}).
Proof.
  intros Hl Hd. unfold defineProperties, bind.
  rewrite (define_all_spec _ _ _ _ Hl), Hd. unfold ret.
  by rewrite insert_all_map_to_list.
Qed.

Lemma all_configurable_to_list (m : gmap string desc) :
  all_configurable m → Forall (λ kd, configurable kd.2 = true) (map_to_list m).
Proof.
  intros Hm. apply Forall_forall. intros [k d] Hkd.
  apply elem_of_map_to_list in Hkd. by apply (Hm k).
Qed.

(** ** [assign] *)

Lemma assign_returns_its_target ob o w v w' :
  assign ob o w = Ok (v, w') → v = ob.
Proof.
  unfold assign. intros H. apply bind_inv in H as (a & w1 & _ & H).
  unfold ret in H. congruence.
Qed.

(** One turn of the [forEach] callback on a copyable source. *)
Lemma assign_source target s w ot :
  heap_of w !! target = Some ot →
  extensible ot = true →
  all_configurable (props ot) →
  copyable (heap_of w) s →
  (if bool_decide (typeof (heap_of w) s ≠ "undefined")
   then let* ds := getOwnPropertyDescriptors s in
        defineProperties (VRef target) ds ;;; ret tt
   else ret tt) w =
  Ok (tt, {| heap_of := <[target := with_props ot (source_props (heap_of w) target s ∪ props ot)]> (heap_of w);
             fiber_of := fiber_of w |}).
Proof.
  intros Ht He Hc Hs.
  assert (Hsame : Ok (tt, w) = Ok (tt, {| heap_of := <[target := with_props ot (∅ ∪ props ot)]> (heap_of w);
                                         fiber_of := fiber_of w |})).
  { by rewrite (left_id_L ∅ (∪)), with_props_id, insert_id, world_eta. }
  destruct s as [| | b | x | s | l]; simpl in *; try done.
  destruct Hs as (o & Hl & Ho).
  rewrite bool_decide_eq_true_2.
  2:{ rewrite Hl. by destruct (callee o). }
  unfold bind at 1. unfold bind at 1. unfold read_object. rewrite Hl. unfold ret at 1.
  unfold bind.
  rewrite (define_all_spec _ _ _ _ Ht), He, definable_configurable;
    [|done|by apply all_configurable_to_list].
  rewrite insert_all_map_to_list. unfold ret. destruct (decide (l = target)) as [->|Hne]; [|done].
  rewrite Ht in Hl. injection Hl as <-.
  by rewrite (idemp_L (∪)), (left_id_L ∅ (∪)).
Qed.

Lemma source_props_insert h target ot s :
  source_props (<[target := ot]> h) target s = source_props h target s.
Proof.
  destruct s as [| | | | |l]; simpl; try done.
  destruct (decide (l = target)); [done|]. by rewrite lookup_insert_ne.
Qed.

Lemma merged_insert h target ot p o :
  merged (<[target := ot]> h) target p o = merged h target p o.
Proof.
  revert p. induction o as [|s o IH]; intros p; [done|].
  unfold merged in *. simpl. by rewrite source_props_insert, IH.
Qed.

Lemma source_props_configurable h target s :
  copyable h s → all_configurable (source_props h target s).
Proof.
  destruct s as [| | | | |l]; simpl; try (intros _; apply map_Forall_empty).
  intros (o & Hl & Ho). destruct (decide (l = target)).
  - apply map_Forall_empty.
  - by rewrite Hl.
Qed.

Lemma copyable_insert h target ot s :
  all_configurable (props ot) →
  copyable h s → copyable (<[target := ot]> h) s.
Proof.
  intros Hot. destruct s as [| | | | |l]; simpl; try done.
  intros (o & Hl & Ho). destruct (decide (l = target)) as [->|Hne].
  - exists ot. by rewrite lookup_insert_eq.
  - exists o. by rewrite lookup_insert_ne.
Qed.

Lemma assign_forEach_spec target o w ot :
  heap_of w !! target = Some ot →
  extensible ot = true →
  all_configurable (props ot) →
  Forall (copyable (heap_of w)) o →
  assign_forEach (VRef target) o w =
    Ok (tt, {| heap_of := <[target := with_props ot (merged (heap_of w) target (props ot) o)]> (heap_of w);
               fiber_of := fiber_of w |}).
Proof.
  revert w ot. induction o as [|s o IH]; intros w ot Ht He Hc Ho.
  - simpl. unfold ret, merged. simpl. by rewrite with_props_id, insert_id, world_eta.
  - apply Forall_cons in Ho as [Hs Ho].
    cbn [assign_forEach]. unfold bind at 1. unfold get_heap.
    unfold bind at 1.
    rewrite (assign_source _ _ _ _ Ht He Hc Hs).
    set (p1 := source_props (heap_of w) target s ∪ props ot).
    assert (Hp1 : all_configurable p1).
    { apply map_Forall_union_2; [|done]. by apply source_props_configurable. }
    rewrite (IH _ (with_props ot p1)); simpl.
    + by rewrite insert_insert_eq, merged_insert.
    + by rewrite lookup_insert_eq.
    + done.
    + done.
    + eapply Forall_impl; [exact Ho|]. intros s'. by apply copyable_insert.
Qed.

(** C6 (as amended): whenever [assign] returns, it returns the very target
    it was given; and for an extensible target whose own properties are
    configurable, and sources none of which is [null] and whose own
    properties are configurable, it does return: nothing but the target has
    changed, an [undefined] source was skipped, and each other source had
    all its own property descriptors (accessors and attributes as they are)
    copied onto the target, a later source overriding an earlier one on the
    same key. *)
Theorem assign_copies_descriptors target o w ot :
  heap_of w !! target = Some ot →
  (∀ v w', assign (VRef target) o w = Ok (v, w') → v = VRef target)
  ∧ (extensible ot = true →
     all_configurable (props ot) →
     Forall (copyable (heap_of w)) o →
     assign (VRef target) o w =
       Ok (VRef target,
           {| heap_of := <[target := with_props ot (merged (heap_of w) target (props ot) o)]>
                           (heap_of w);
              fiber_of := fiber_of w |})).
Proof.
  intros Ht. split.
  - intros v w'. apply assign_returns_its_target.
  - intros He Hc Ho. unfold assign, bind.
    by rewrite (assign_forEach_spec _ _ _ _ Ht He Hc Ho).
Qed.

(** The last source wins, key by key. *)
Lemma merged_snoc h target p o s :
  merged h target p (o ++ [s]) = source_props h target s ∪ merged h target p o.
Proof. unfold merged. by rewrite foldl_snoc. Qed.

Lemma merged_last_wins h target p o l ol k d :
  l ≠ target → h !! l = Some ol → props ol !! k = Some d →
  merged h target p (o ++ [VRef l]) !! k = Some d.
Proof.
  intros Hne Hl Hk. rewrite merged_snoc. simpl.
  rewrite decide_False by done. rewrite Hl.
  by apply lookup_union_Some_l.
Qed.

(** A key that no source has keeps the descriptor the target had. *)
Lemma merged_untouched h target p o k :
  Forall (λ s, source_props h target s !! k = None) o →
  merged h target p o !! k = p !! k.
Proof.
  intros Ho. revert p. induction Ho as [|s o Hs _ IH]; intros p; [done|].
  unfold merged in *. simpl. rewrite IH. by rewrite lookup_union_r.
Qed.

Lemma assign_copies_descriptors_witness :
  assign (VRef Bench.store) [VUndef; VRef Bench.fakeRecord; VNum 0; VRef Bench.manager]
    Bench.initial
  = Ok (VRef Bench.store,
        {| heap_of :=
             <[Bench.store :=
                 with_props empty_object
                   (merged Bench.realm Bench.store ∅
                      [VUndef; VRef Bench.fakeRecord; VNum 0; VRef Bench.manager])]>
               Bench.realm;
           fiber_of := unmounted |}).
Proof.
  apply (assign_copies_descriptors Bench.store
           [VUndef; VRef Bench.fakeRecord; VNum 0; VRef Bench.manager]
           Bench.initial empty_object).
  - vm_compute. reflexivity.
  - reflexivity.
  - apply map_Forall_empty.
  - repeat constructor.
    + exists (with_props empty_object (<["type" := Bench.field (VStr "company")]> ∅)).
      split; [vm_compute; reflexivity|].
      apply map_Forall_insert_2; [reflexivity|apply map_Forall_empty].
    + exists (with_props empty_object
                (<["save" := Bench.method (VRef Bench.manager_save)]>
                   (<["delete" := Bench.method (VRef Bench.manager_delete)]> ∅))).
      split; [vm_compute; reflexivity|].
      repeat (apply map_Forall_insert_2; [reflexivity|]). apply map_Forall_empty.
Defined.

(** C6 as stated fails: [assign] does not return its target for every
    target and every list of sources.  [typeof null] is ["object"], so a
    [null] source passes the guard and [Object.getOwnPropertyDescriptors]
    throws; a second string source cannot override the read-only,
    non-configurable index property the first one defined; on a frozen
    target ([{type: 'ceo'}], frozen) no new property can be defined and the
    existing one cannot be redefined. *)
Lemma assign_throws_counterexample :
  assign (VRef Bench.store) [VNull] Bench.initial = Throw TypeError
  ∧ assign (VRef Bench.store) [VStr "a"; VStr "b"] Bench.initial = Throw TypeError
  ∧ assign (VRef Bench.frozen) [VRef Bench.manager] Bench.initial = Throw TypeError
  ∧ assign (VRef Bench.frozen) [VRef Bench.fakeRecord] Bench.initial = Throw TypeError.
Proof. repeat split; vm_compute; reflexivity. Qed.

(** A single string source on a new object is copied: its characters and
    its [length]. *)
Example assign_string_source :
  ∃ w', assign (VRef Bench.store) [VStr "ab"] Bench.initial = Ok (VRef Bench.store, w')
    ∧ (props <$> heap_of w' !! Bench.store)
      = Some (<["0" := Data (VStr "a") false true false]>
                (<["1" := Data (VStr "b") false true false]>
                   (<["length" := Data (VNum 4611686018427387904) false false false]> ∅))).
Proof. eexists. split; vm_compute; reflexivity. Qed.

(** ** What calls preserve

    Whatever relation on worlds is reflexive, transitive, and respected by
    the state setter and by foreign functions is respected by every call. *)
Section Preserved.
Context (F : foreign) (R : world → world → Prop).
Hypothesis R_refl : ∀ w, R w w.
Hypothesis R_trans : ∀ w1 w2 w3, R w1 w2 → R w2 w3 → R w1 w3.
Hypothesis R_enqueue : ∀ h f a,
  R {| heap_of := h; fiber_of := f |} {| heap_of := h; fiber_of := enqueue h f a |}.
Hypothesis R_extern : ∀ id this args h f v h' calls,
  extern F id this args h = Ok (v, h', calls) →
  R {| heap_of := h; fiber_of := f |} {| heap_of := h'; fiber_of := f |}.

Lemma call_back_preserved callf calls w u w' :
  (∀ f this args w v w', callf f this args w = Ok (v, w') → R w w') →
  call_back callf calls w = Ok (u, w') → R w w'.
Proof.
  intros Hcall. revert w. induction calls as [|[f args] calls IH]; intros w H; simpl in H.
  - unfold ret in H. injection H as _ <-. done.
  - inv_bind H. eapply R_trans; [by eapply Hcall|by eapply IH].
Qed.

Lemma get_preserved callf v k w x w' :
  (∀ f this args w v w', callf f this args w = Ok (v, w') → R w w') →
  get callf v k w = Ok (x, w') → R w w'.
Proof.
  intros Hcall H. unfold get, bind, get_heap in H.
  destruct (get_property (heap_of w) v k) as [[[y ? ? ?|g ? ? ?]|]| |];
    unfold ret, throw, stuck in H; try done.
  - injection H as _ <-. done.
  - destruct g; try (by eapply Hcall). injection H as _ <-. done.
  - injection H as _ <-. done.
Qed.

Lemma call_preserved n f this args w v w' :
  call F n f this args w = Ok (v, w') → R w w'.
Proof.
  revert f this args w v w'. induction n as [|n IH]; intros f this args w v w' H; [done|].
  simpl in H. destruct f as [| | | | |l]; try done.
  inv_bind H. unfold read_object in H0.
  destruct (heap_of w !! l) as [o|]; [|done]. injection H0 as <- <-.
  destruct (callee o) as [[m r|m r| |id]|]; [| | | |done].
  - inv_bind H. inv_bind H.
    eapply R_trans; [by eapply get_preserved|].
    eapply R_trans; [by eapply get_preserved|]. by eapply IH.
  - inv_bind H. inv_bind H.
    eapply R_trans; [by eapply get_preserved|].
    eapply R_trans; [by eapply get_preserved|]. by eapply IH.
  - inv_bind H. unfold dispatchAction in H0. injection H0 as _ <-.
    unfold ret in H. injection H as _ <-.
    destruct w as [h f]. apply R_enqueue.
  - unfold run_foreign in H.
    destruct (extern F id this args (heap_of w)) as [[[y h'] calls]| |] eqn:He; [|done..].
    inv_bind H. unfold ret in H. injection H as _ <-.
    destruct w as [h f]. simpl in *.
    eapply R_trans; [by eapply R_extern|]. eapply call_back_preserved; [|done].
    intros ? ? ? ? ? ?. apply IH.
Qed.

Lemma reduce_queue_preserved n s q w s' w' :
  reduce_queue F n s q w = Ok (s', w') → R w w'.
Proof.
  revert s w. induction q as [|a q IH]; intros s w H; simpl in H.
  - unfold ret in H. injection H as _ <-. done.
  - unfold bind at 1 in H. unfold get_heap in H. inv_bind H.
    eapply R_trans; [|by eapply IH].
    destruct (is_callable (heap_of w) a).
    + by eapply call_preserved.
    + unfold ret in H0. injection H0 as _ <-. done.
Qed.

End Preserved.

(** ** Property lookup and assignment *)

Lemma find_prop_mono n m (h h' : heap) o k r :
  find_prop n h o k = Ok r → n ≤ m → h ⊆ h' → find_prop m h' o k = Ok r.
Proof.
  revert m o. induction n as [|n IH]; intros m o H Hle Hsub.
  - destruct o; try done. destruct m; exact H.
  - destruct o as [| | | | |l]; try done.
    + destruct m; exact H.
    + destruct m as [|m]; [lia|]. simpl in *.
      destruct (h !! l) as [ob|] eqn:Hl; [|done].
      rewrite (lookup_weaken _ _ _ _ Hl Hsub).
      destruct (props ob !! k); [done|]. apply IH; [done|lia|done].
Qed.

Lemma find_prop_insert_key n (h : heap) l ol k' d o k :
  h !! l = Some ol → k ≠ k' →
  find_prop n (<[l := with_props ol (<[k' := d]> (props ol))]> h) o k = find_prop n h o k.
Proof.
  intros Hl Hk. revert o. induction n as [|n IH]; intros o.
  - by destruct o.
  - destruct o as [| | | | |l0]; try done. simpl.
    destruct (decide (l0 = l)) as [->|Hne].
    + rewrite lookup_insert_eq, Hl. simpl. rewrite lookup_insert_ne by done.
      destruct (props ol !! k); [done|]. apply IH.
    + rewrite lookup_insert_ne by done.
      destruct (h !! l0) as [ob|]; [|done].
      destruct (props ob !! k); [done|]. apply IH.
Qed.

Lemma find_prop_own n (h : heap) l o k :
  find_prop n h (VRef l) k = Ok None → h !! l = Some o → props o !! k = None.
Proof.
  intros H Hl. destruct n; [done|]. simpl in H. rewrite Hl in H.
  by destruct (props o !! k).
Qed.

Lemma size_insert_le (h : heap) l o : size h ≤ size (<[l := o]> h).
Proof.
  destruct (h !! l) as [o'|] eqn:Hl.
  - rewrite map_size_insert_Some; [done|by exists o'].
  - rewrite map_size_insert_None by done. lia.
Qed.

Lemma fresh_lookup (h : heap) : h !! fresh (dom h) = None.
Proof. apply not_elem_of_dom, is_fresh. Qed.

Lemma fresh_ne (h : heap) l o : h !! l = Some o → fresh (dom h) ≠ l.
Proof. intros Hl Heq. rewrite <- Heq, fresh_lookup in Hl. done. Qed.

(** Assignment creates the property when nothing of that name is found. *)
Lemma set_new_property callf l k v w o :
  heap_of w !! l = Some o →
  extensible o = true →
  find_prop (size (heap_of w)) (heap_of w) (VRef l) k = Ok None →
  set callf l k v w =
    Ok (tt, {| heap_of := <[l := with_props o (<[k := Data v true true true]> (props o))]> (heap_of w);
               fiber_of := fiber_of w |}).
Proof.
  intros Hl He Hf. unfold set, bind, get_heap. rewrite Hf.
  unfold read_object. rewrite Hl.
  by rewrite (find_prop_own _ _ _ _ _ Hf Hl), He.
Qed.

Lemma plain_record_inv h l :
  plain_record h l = true →
  ∃ o, h !! l = Some o ∧ extensible o = true
       ∧ find_prop (size h) h (VRef l) "save" = Ok None
       ∧ find_prop (size h) h (VRef l) "delete" = Ok None.
Proof.
  unfold plain_record. destruct (h !! l) as [o|]; [|done].
  intros H. apply andb_true_iff in H as [H Hd].
  apply andb_true_iff in H as [He Hs].
  apply bool_decide_eq_true in Hd, Hs. by exists o.
Qed.

(** ** The factory passed to [useMemo] *)

Lemma construct_Ok (run : heap → outcome (loc * heap * list val)) w a h' actions :
  run (heap_of w) = Ok (a, h', actions) →
  construct run w =
    Ok (a, {| heap_of := h'; fiber_of := foldl (enqueue h') (fiber_of w) actions |}).
Proof. intros H. unfold construct. by rewrite H. Qed.

Lemma alloc_Ok o h f :
  alloc o {| heap_of := h; fiber_of := f |} =
    Ok (fresh (dom h), {| heap_of := <[fresh (dom h) := o]> h; fiber_of := f |}).
Proof. done. Qed.

Lemma assign_onto_new target l h f ol :
  h !! l = Some ol → h !! target = Some empty_object →
  assign (VRef target) [VRef l] {| heap_of := h; fiber_of := f |} =
    Ok (VRef target,
        {| heap_of := <[target := with_props empty_object (props ol)]> h; fiber_of := f |}).
Proof.
  intros Hl Ht. unfold assign, bind. simpl.
  unfold bind at 1. unfold get_heap. simpl.
  rewrite bool_decide_eq_true_2.
  2:{ rewrite Hl. by destruct (callee ol). }
  unfold bind. unfold read_object. simpl. rewrite Hl. unfold ret at 1.
  rewrite (define_all_spec _ _ _ empty_object) by done. simpl.
  rewrite definable_fresh.
  - rewrite insert_all_map_to_list. unfold ret. by rewrite (right_id_L ∅ (∪)).
  - apply NoDup_fst_map_to_list.
  - intros k _. apply lookup_empty.
Qed.

Lemma nextCreate_spec F n manager record fr w inst h1 actions :
  Record_new F [record; fr] (heap_of w) = Ok (inst, h1, actions) →
  plain_record h1 inst = true →
  ∃ t h',
    nextCreate F n manager record fr w =
      Ok (VRef t, {| heap_of := h'; fiber_of := foldl (enqueue h1) (fiber_of w) actions |})
    ∧ wraps manager h1 h' inst t.
Proof.
  intros HR Hplain.
  apply plain_record_inv in Hplain as (oi & Hi & He & Hsave & Hdelete).
  set (fb := foldl (enqueue h1) (fiber_of w) actions).
  set (f := fresh (dom h1)).
  set (h2 := <[f := function_object (CSave manager inst)]> h1).
  set (p1 := <["save" := Data (VRef f) true true true]> (props oi)).
  set (h3 := <[inst := with_props oi p1]> h2).
  set (g := fresh (dom h3)).
  set (h4 := <[g := function_object (CDelete manager inst)]> h3).
  set (p2 := <["delete" := Data (VRef g) true true true]> p1).
  set (h5 := <[inst := with_props oi p2]> h4).
  set (t := fresh (dom h5)).
  assert (Hf : h1 !! f = None) by apply fresh_lookup.
  assert (Hfi : f ≠ inst) by (by eapply fresh_ne).
  assert (H2i : h2 !! inst = Some oi) by (unfold h2; by rewrite lookup_insert_ne).
  assert (H12 : h1 ⊆ h2) by (by apply insert_subseteq).
  assert (H3i : h3 !! inst = Some (with_props oi p1)) by apply lookup_insert_eq.
  assert (Hg : h3 !! g = None) by apply fresh_lookup.
  assert (Hgi : g ≠ inst) by (by eapply fresh_ne).
  assert (H4i : h4 !! inst = Some (with_props oi p1)) by (unfold h4; by rewrite lookup_insert_ne).
  assert (H34 : h3 ⊆ h4) by (by apply insert_subseteq).
  assert (H5i : h5 !! inst = Some (with_props oi p2)) by apply lookup_insert_eq.
  assert (Ht : h5 !! t = None) by apply fresh_lookup.
  assert (Hti : t ≠ inst) by (by eapply fresh_ne).
  assert (Hgf : g ≠ f).
  { eapply fresh_ne. unfold h3. rewrite lookup_insert_ne by done. apply lookup_insert_eq. }
  exists t, (<[t := with_props empty_object p2]> h5). split.
  - unfold nextCreate.
    rewrite (bind_Ok _ _ _ _ _ (construct_Ok _ _ _ _ _ HR)). fold fb.
    rewrite (bind_Ok _ _ _ _ _ (alloc_Ok _ _ _)). fold f h2.
    erewrite (bind_Ok (set _ _ _ _)).
    2:{ apply (set_new_property _ _ _ _ _ oi); simpl; [done|done|].
        eapply find_prop_mono; [exact Hsave| |done].
        apply size_insert_le. }
    simpl. fold p1 h3.
    rewrite (bind_Ok _ _ _ _ _ (alloc_Ok _ _ _)). fold g h4.
    erewrite (bind_Ok (set _ _ _ _)).
    2:{ apply (set_new_property _ _ _ _ _ (with_props oi p1)); simpl; [done|done|].
        eapply find_prop_mono; [|reflexivity|exact H34].
        unfold h3, p1. rewrite find_prop_insert_key by done.
        eapply find_prop_mono; [exact Hdelete| |done].
        etrans; [apply (size_insert_le _ f (function_object (CSave manager inst)))|].
        fold h2. etrans; [apply (size_insert_le _ inst (with_props oi p1))|].
        fold h3. apply size_insert_le. }
    simpl. fold p2 h5.
    rewrite (bind_Ok _ _ _ _ _ (alloc_Ok _ _ _)). fold t.
    rewrite (assign_onto_new _ _ _ _ (with_props oi p2)).
    + simpl. by rewrite insert_insert_eq.
    + rewrite lookup_insert_ne by done. exact H5i.
    + apply lookup_insert_eq.
  - exists oi, f, g. simpl. fold p1 p2.
    assert (Htf : t ≠ f).
    { eapply fresh_ne. unfold h5, h4, h3.
      rewrite !lookup_insert_ne by done. apply lookup_insert_eq. }
    assert (Htg : t ≠ g).
    { eapply fresh_ne. unfold h5, h4.
      rewrite lookup_insert_ne by done. apply lookup_insert_eq. }
    assert (Hgh1 : h1 !! g = None).
    { destruct (h1 !! g) as [o|] eqn:Hg1; [|done].
      exfalso. unfold h3, h2 in Hg. rewrite !lookup_insert_ne in Hg by done. congruence. }
    assert (Hth1 : h1 !! t = None).
    { destruct (h1 !! t) as [o|] eqn:Ht1; [|done].
      exfalso. unfold h5, h4, h3, h2 in Ht. rewrite !lookup_insert_ne in Ht by done. congruence. }
    repeat split; try done.
    + unfold h5, h4, h3, h2. rewrite !lookup_insert_ne by done. apply lookup_insert_eq.
    + unfold h5, h4. rewrite !lookup_insert_ne by done. apply lookup_insert_eq.
    + rewrite lookup_insert_ne by done. exact H5i.
    + apply lookup_insert_eq.
    + intros l o Hl Hne.
      assert (l ≠ f) by congruence. assert (l ≠ g) by congruence. assert (l ≠ t) by congruence.
      unfold h5, h4, h3, h2. by rewrite !lookup_insert_ne.
Qed.

(** ** What a render preserves *)

Lemma enqueue_cells h f a :
  memo_cell (enqueue h f a) = memo_cell f ∧ state_cell (enqueue h f a) = state_cell f.
Proof. unfold enqueue. by destruct (match queue f with [] => _ | _ => _ end). Qed.

Lemma enqueue_all_cells h f actions :
  memo_cell (foldl (enqueue h) f actions) = memo_cell f
  ∧ state_cell (foldl (enqueue h) f actions) = state_cell f.
Proof.
  revert f. induction actions as [|a actions IH]; intros f; simpl; [done|].
  destruct (IH (enqueue h f a)) as [-> ->]. apply enqueue_cells.
Qed.

Lemma reduce_queue_cells F n s q w s' w' :
  reduce_queue F n s q w = Ok (s', w') → same_cells w w'.
Proof.
  apply (reduce_queue_preserved F same_cells).
  - by intros ?.
  - intros w1 w2 w3 [H1 H2] [H3 H4]. split; congruence.
  - intros h f a. apply enqueue_cells.
  - by intros.
Qed.

Lemma reduce_queue_keeps F p o n s q w s' w' :
  foreign_keeps F p →
  reduce_queue F n s q w = Ok (s', w') → keeps_object p o w w'.
Proof.
  intros [HF _]. apply (reduce_queue_preserved F (keeps_object p o)).
  - by intros w1 H.
  - intros w1 w2 w3 H1 H2 H. by apply H2, H1.
  - by intros h f a H.
  - intros id this args h f v h' actions He Hp. by eapply HF.
Qed.

Lemma alloc_keeps (h : heap) p o o' :
  h !! p = Some o → <[fresh (dom h) := o']> h !! p = Some o.
Proof.
  intros Hp. rewrite lookup_insert_ne; [done|]. by eapply fresh_ne.
Qed.

(** [useState]: the setter is the one of the cell, the cell of [useMemo] is
    not touched, and an object foreign code keeps is kept. *)
Lemma useState_inv F n init w s fr w0 :
  useState F n init w = Ok ((s, fr), w0) →
  ∃ d, fr = VRef d
       ∧ state_cell (fiber_of w0) = Some (s, d)
       ∧ memo_cell (fiber_of w0) = memo_cell (fiber_of w)
       ∧ (∀ p o, foreign_keeps F p → keeps_object p o w w0)
       ∧ (∀ s0 d0, state_cell (fiber_of w) = Some (s0, d0) → d = d0).
Proof.
  intros H. unfold useState in H. unfold bind at 1 in H. unfold get_fiber in H.
  destruct (state_cell (fiber_of w)) as [[s0 d0]|] eqn:Hcell.
  - step_bind H as u1 w1 Hput. unfold put_fiber in Hput. injection Hput as _ <-.
    step_bind H as s1 w2 Hred.
    step_bind H as f2 w3 Hget. unfold get_fiber in Hget. injection Hget as <- <-.
    step_bind H as u2 w4 Hput. unfold put_fiber in Hput. injection Hput as _ <-.
    unfold ret in H. injection H as <- <- <-.
    exists d0. simpl.
    destruct (reduce_queue_cells _ _ _ _ _ _ _ Hred) as [Hm _]. simpl in Hm.
    repeat split; try done.
    + intros p o HF Hp. simpl.
      by apply (reduce_queue_keeps _ _ _ _ _ _ _ _ _ HF Hred).
    + congruence.
  - step_bind H as d w1 Hal. unfold alloc in Hal. injection Hal as <- <-.
    step_bind H as u1 w2 Hput. unfold put_fiber in Hput. injection Hput as _ <-.
    unfold ret in H. injection H as <- <- <-.
    eexists. simpl. repeat split; try done.
    intros p o HF Hp. simpl. by apply alloc_keeps.
Qed.

(** ** [useCrud]: what a render does *)

Lemma useCrud_inv F n env arguments w v w' :
  useCrud F n env arguments w = Ok (v, w') →
  ∃ s d w0,
    state_cell (fiber_of w0) = Some (s, d)
    ∧ memo_cell (fiber_of w0) = memo_cell (fiber_of w)
    ∧ (∀ p o, foreign_keeps F p → keeps_object p o w w0)
    ∧ (∀ s0 d0, state_cell (fiber_of w) = Some (s0, d0) → d = d0)
    ∧ ((memo_cell (fiber_of w0) = Some (v, [s; nth 0 arguments VUndef]) ∧ w' = w0)
       ∨ (∃ w1, nextCreate F n (CrudContext env) (nth 0 arguments VUndef) (VRef d) w0 = Ok (v, w1)
                ∧ w' = with_memo w1 v [s; nth 0 arguments VUndef])).
Proof.
  intros H. unfold useCrud, useContext in H.
  step_bind H as m wa Hctx. unfold ret in Hctx. injection Hctx as <- <-.
  step_bind H as i wb Hal. unfold alloc in Hal. injection Hal as <- <-.
  step_bind H as sf w0 Hst. destruct sf as [s fr].
  apply useState_inv in Hst as (d & -> & Hcell & Hmemo & Hkeep & Hd).
  exists s, d, w0. repeat split; try done.
  - intros p o HF Hp. apply (Hkeep p o HF). simpl. by apply alloc_keeps.
  - unfold useMemo in H. unfold bind at 1 in H. unfold get_fiber in H.
    destruct (memo_cell (fiber_of w0)) as [[v0 prev]|] eqn:Hm0.
    + case_bool_decide as Hdeps.
      * left. unfold ret in H. injection H as <- <-. by rewrite Hdeps.
      * right. step_bind H as v1 w1 Hnc.
        step_bind H as f1 w2 Hget. unfold get_fiber in Hget. injection Hget as <- <-.
        step_bind H as u w3 Hput. unfold put_fiber in Hput. injection Hput as _ <-.
        unfold ret in H. injection H as <- <-. by exists w1.
    + right. step_bind H as v1 w1 Hnc.
      step_bind H as f1 w2 Hget. unfold get_fiber in Hget. injection Hget as <- <-.
      step_bind H as u w3 Hput. unfold put_fiber in Hput. injection Hput as _ <-.
      unfold ret in H. injection H as <- <-. by exists w1.
Qed.

Lemma nextCreate_inv F n manager record fr w v w1 :
  Record_plain F →
  nextCreate F n manager record fr w = Ok (v, w1) →
  ∃ CrudRecord h1 actions wrapper,
    v = VRef wrapper
    ∧ Record_new F [record; fr] (heap_of w) = Ok (CrudRecord, h1, actions)
    ∧ wraps manager h1 (heap_of w1) CrudRecord wrapper
    ∧ fiber_of w1 = foldl (enqueue h1) (fiber_of w) actions.
Proof.
  intros HP Hnc.
  pose proof Hnc as Hnc'. unfold nextCreate in Hnc'.
  step_bind Hnc' as inst wR HR. unfold construct in HR.
  destruct (Record_new F _ (heap_of w)) as [[[inst' h1] actions]| |] eqn:HRec; [|done..].
  unfold bind, dispatch_all, ret in HR. injection HR as -> _.
  destruct (nextCreate_spec F n manager _ _ _ _ _ _ HRec (HP _ _ _ _ _ HRec))
    as (t & h' & Hrun & Hwraps).
  rewrite Hrun in Hnc. injection Hnc as <- <-.
  by exists inst, h1, actions, t.
Qed.

(** A render that stores a new memo entry ran the factory: it constructed a
    [Record] from the first argument and the setter of the state cell, and
    returns a wrapper of that instance made for the manager in context. *)
Lemma useCrud_rebuild F n env arguments w v w' :
  Record_plain F →
  useCrud F n env arguments w = Ok (v, w') →
  rebuilds w w' →
  ∃ s d h0 CrudRecord h1 actions wrapper,
    v = VRef wrapper
    ∧ Record_new F [nth 0 arguments VUndef; VRef d] h0 = Ok (CrudRecord, h1, actions)
    ∧ wraps (CrudContext env) h1 (heap_of w') CrudRecord wrapper
    ∧ state_cell (fiber_of w') = Some (s, d)
    ∧ memo_cell (fiber_of w') = Some (v, [s; nth 0 arguments VUndef])
    ∧ (∀ s0 d0, state_cell (fiber_of w) = Some (s0, d0) → d = d0)
    ∧ (∀ p o, foreign_keeps F p → heap_of w !! p = Some o → h0 !! p = Some o).
Proof.
  intros HP H Hre.
  apply useCrud_inv in H as (s & d & w0 & Hcell & Hmemo & Hkeep & Hd & [[Hc ->]|(w1 & Hnc & ->)]).
  { exfalso. apply Hre. done. }
  apply nextCreate_inv in Hnc as (inst & h1 & actions & t & -> & HRec & Hwraps & Hfib); [|done].
  exists s, d, (heap_of w0), inst, h1, actions, t. simpl.
  destruct (enqueue_all_cells h1 (fiber_of w0) actions) as [_ Hsc].
  repeat split; try done. by rewrite Hfib, Hsc.
Qed.

(** The first render stores an entry. *)
Lemma first_render_rebuilds F n env arguments w v w' :
  memo_cell (fiber_of w) = None →
  useCrud F n env arguments w = Ok (v, w') →
  rebuilds w w'.
Proof.
  intros Hm H Heq.
  apply useCrud_inv in H as (s & d & w0 & _ & Hmemo & _ & _ & [[Hc ->]|(w1 & _ & ->)]).
  - rewrite Hmemo, Hm in Hc. discriminate Hc.
  - rewrite Hm in Heq. discriminate Heq.
Qed.

(** An object that foreign code keeps is kept by a render: the hook writes
    to the new [Record] instance and to the objects it creates, and to
    nothing else. *)
Lemma useCrud_keeps F n env arguments w v w' p o :
  Record_plain F → Record_fresh F → foreign_keeps F p →
  useCrud F n env arguments w = Ok (v, w') →
  heap_of w !! p = Some o → heap_of w' !! p = Some o.
Proof.
  intros HP HN HF H Hp.
  apply useCrud_inv in H as (s & d & w0 & Hcell & Hmemo & Hkeep & Hd & [[Hc ->]|(w1 & Hnc & ->)]).
  { by apply (Hkeep p o HF). }
  apply nextCreate_inv in Hnc as (inst & h1 & actions & t & -> & HRec & Hwraps & Hfib); [|done].
  simpl. destruct Hwraps as (oi & f & g & _ & _ & _ & _ & _ & _ & _ & _ & Hframe).
  apply Hframe.
  - pose proof (Hkeep p o HF Hp) as Hp0.
    destruct HF as [_ HFR]. eapply HFR; [exact HRec|exact Hp0].
  - intros ->. apply HN in HRec. specialize (Hkeep inst o HF Hp). congruence.
Qed.

Lemma find_prop_hit n (h : heap) l o k d :
  h !! l = Some o → props o !! k = Some d →
  find_prop (S n) h (VRef l) k = Ok (Some d).
Proof. intros Hl Hk. simpl. by rewrite Hl, Hk. Qed.

Lemma lookup_size_pos (h : heap) l o : h !! l = Some o → ∃ n, size h = S n.
Proof.
  intros Hl. destruct (size h) as [|n] eqn:Hs; [|by exists n].
  apply map_size_empty_iff in Hs. subst. by rewrite lookup_empty in Hl.
Qed.

(** The two methods of a wrapper: reading [save] (or [delete]) finds the
    closure as an own property, and calling it makes the manager's call. *)
Lemma wrapper_methods F m manager h w' CrudRecord wrapper args :
  wraps manager h (heap_of w') CrudRecord wrapper →
  invoke F (S m) (VRef wrapper) "save" args w' =
    manager_call F m manager "save" CrudRecord (nth 0 args VUndef) w'
  ∧ invoke F (S m) (VRef wrapper) "delete" args w' =
    manager_call F m manager "delete" CrudRecord (nth 0 args VUndef) w'.
Proof.
  intros (oi & f & g & Hi & Hf & Hg & Ht & Hf' & Hg' & Hi' & Ht' & _).
  destruct (lookup_size_pos _ _ _ Ht') as [k Hk].
  split.
  - unfold invoke, get. unfold bind at 1. unfold bind at 1. unfold get_heap.
    unfold get_property. rewrite Hk.
    erewrite find_prop_hit; [|exact Ht'|].
    2:{ simpl. rewrite lookup_insert_ne by done. apply lookup_insert_eq. }
    unfold ret at 1. simpl call. unfold bind at 1. unfold read_object. by rewrite Hf'.
  - unfold invoke, get. unfold bind at 1. unfold bind at 1. unfold get_heap.
    unfold get_property. rewrite Hk.
    erewrite find_prop_hit; [|exact Ht'|].
    2:{ simpl. apply lookup_insert_eq. }
    unfold ret at 1. simpl call. unfold bind at 1. unfold read_object. by rewrite Hg'.
Qed.

(** When the manager's method is a foreign function and [_record] a data
    property, the manager's call is that function run on the manager with
    the record and the options; a call depth of one is enough. *)
Lemma manager_call_foreign F k manager method CrudRecord options w id rv :
  foreign_method (heap_of w) manager method id →
  data_field (heap_of w) (VRef CrudRecord) "_record" rv →
  manager_call F (S k) manager method CrudRecord options w =
    run_foreign (call F k) (extern F id manager [rv; options]) w.
Proof.
  intros (f & fo & wr & en & cf & Hget & Hf & Hfo) (wr' & en' & cf' & Hrec).
  unfold manager_call, get. unfold bind at 1. unfold bind at 1. unfold get_heap.
  rewrite Hget. unfold ret at 1.
  unfold bind at 1. unfold bind at 1. rewrite Hrec. unfold ret at 1.
  simpl call. unfold bind, read_object. by rewrite Hf, Hfo.
Qed.

(** ** The test bench meets what is assumed of the libraries *)

Lemma find_prop_null n (h : heap) k : find_prop n h VNull k = Ok None.
Proof. by destruct n. Qed.

Lemma Bench_Record_plain : Record_plain Bench.lib.
Proof.
  intros args h l h' actions H. simpl in H. unfold Bench.new_Record in H.
  injection H as <- <- <-.
  unfold plain_record. rewrite lookup_insert_eq.
  match goal with
  | |- context [size (<[?l := ?o]> h)] =>
      destruct (lookup_size_pos (<[l := o]> h) l o (lookup_insert_eq _ _ _)) as [k ->]
  end.
  simpl. rewrite lookup_insert_eq. simpl.
  rewrite !lookup_insert_ne by done. rewrite !lookup_empty.
  rewrite !find_prop_null. by rewrite !bool_decide_eq_true_2.
Qed.

Lemma Bench_Record_fresh : Record_fresh Bench.lib.
Proof.
  intros args h l h' actions H. simpl in H. unfold Bench.new_Record in H.
  injection H as <- _ _. apply fresh_lookup.
Qed.

Lemma Bench_keeps p : p ≠ Bench.drafts → foreign_keeps Bench.lib p.
Proof.
  intros Hp. split.
  - intros id this args h v h' actions o H Hl. simpl in H.
    destruct id as [|[[|[]|]|[[]|[]|]|]]; try done; try (by injection H as _ <- _).
    unfold Bench.set_draft in H.
    destruct (h !! Bench.drafts) as [od|]; [|done]. injection H as _ <- _.
    rewrite lookup_insert_ne.
    + by rewrite lookup_insert_ne.
    + eapply fresh_ne. by rewrite lookup_insert_ne.
  - intros args h l h' actions o H Hl. simpl in H. unfold Bench.new_Record in H.
    injection H as _ <- _. by apply alloc_keeps.
Qed.

(** ** The wrapper *)

(** C1 (as amended): on the wrapper a render of [useCrud] has built (the
    first render, and each one in which the state or the record is not the
    one of the cached entry), [save(options)] is the call
    [manager.save(CrudRecord._record, options)] on the manager read from the
    context in that render, with the [_record] of the [Record] instance and
    the first argument as it was given, and with the same outcome (value
    returned, exception thrown, effects); [delete(options)] is the same call
    of the manager's [delete].  The module adds no step of its own: when the
    manager's method is a foreign function and [_record] a data property,
    the outcome of [save(options)] is the outcome of that function run on
    the manager with the record and the options. *)
Theorem save_and_delete_delegate F n env arguments w v w' :
  Record_plain F →
  useCrud F n env arguments w = Ok (v, w') →
  rebuilds w w' →
  ∃ d h0 CrudRecord h1 actions,
    Record_new F [nth 0 arguments VUndef; VRef d] h0 = Ok (CrudRecord, h1, actions)
    ∧ (∀ m args,
         invoke F (S m) v "save" args w' =
           manager_call F m (CrudContext env) "save" CrudRecord (nth 0 args VUndef) w'
         ∧ invoke F (S m) v "delete" args w' =
           manager_call F m (CrudContext env) "delete" CrudRecord (nth 0 args VUndef) w')
    ∧ ∀ method id rv k args,
        method = "save" ∨ method = "delete" →
        foreign_method (heap_of w') (CrudContext env) method id →
        data_field (heap_of w') (VRef CrudRecord) "_record" rv →
        invoke F (S (S k)) v method args w' =
          run_foreign (call F k) (extern F id (CrudContext env) [rv; nth 0 args VUndef]) w'.
Proof.
  intros HP H Hre.
  destruct (useCrud_rebuild _ _ _ _ _ _ _ HP H Hre)
    as (s & d & h0 & inst & h1 & actions & t & -> & HRec & Hwraps & _).
  exists d, h0, inst, h1, actions. split; [done|]. split.
  - intros m args. by eapply wrapper_methods.
  - intros method id rv k args Hmethod Hf Hr.
    destruct (wrapper_methods F (S k) _ _ _ _ _ args Hwraps) as [Hs Hd].
    destruct Hmethod as [-> | ->].
    + rewrite Hs. by apply manager_call_foreign.
    + rewrite Hd. by apply manager_call_foreign.
Qed.

Lemma save_and_delete_delegate_witness :
  ∃ d h0 CrudRecord h1 actions,
    Record_new Bench.lib [VRef Bench.fakeRecord; VRef d] h0 = Ok (CrudRecord, h1, actions)
    ∧ ∀ m args,
        invoke Bench.lib (S m) Bench.mounted.1 "save" args Bench.mounted.2 =
          manager_call Bench.lib m (VRef Bench.manager) "save" CrudRecord (nth 0 args VUndef)
            Bench.mounted.2
        ∧ invoke Bench.lib (S m) Bench.mounted.1 "delete" args Bench.mounted.2 =
          manager_call Bench.lib m (VRef Bench.manager) "delete" CrudRecord (nth 0 args VUndef)
            Bench.mounted.2.
Proof.
  destruct (save_and_delete_delegate Bench.lib 5 Bench.Wrapper [VRef Bench.fakeRecord]
              Bench.initial Bench.mounted.1 Bench.mounted.2)
    as (d & h0 & cr & h1 & actions & HRec & Hcall & _).
  - apply Bench_Record_plain.
  - vm_compute. reflexivity.
  - vm_compute. discriminate.
  - exists d, h0, cr, h1, actions. split; assumption.
Defined.

(** C1 as stated fails for the wrapper of a render that does not build it.
    After a first render under [Bench.manager], a render under a provider
    holding [Bench.otherManager], with the same record and state, returns
    the cached wrapper.  Its [delete(options)] resolves to the options, by
    the [delete] of the first manager, whereas the manager in context has no
    [delete]: the call the claim describes throws a [TypeError].  Its
    [save(options)] resolves to the record, whereas the [save] of the
    manager in context, called with that record and those options, resolves
    to ["other"]. *)
Lemma cached_wrapper_counterexample :
  useCrud Bench.lib 5 Bench.OtherWrapper [VRef Bench.fakeRecord] Bench.mounted.2
    = Ok (Bench.mounted.1, Bench.stale.2)
  ∧ CrudContext Bench.OtherWrapper = VRef Bench.otherManager
  ∧ invoke Bench.lib 5 Bench.mounted.1 "delete" [VStr "options"] Bench.stale.2
    = Ok (VStr "options", Bench.stale.2)
  ∧ manager_call Bench.lib 4 (CrudContext Bench.OtherWrapper) "delete" 18%positive
      (VStr "options") Bench.stale.2
    = Throw TypeError
  ∧ invoke Bench.lib 5 Bench.mounted.1 "save" [VStr "options"] Bench.stale.2
    = Ok (VRef Bench.fakeRecord, Bench.stale.2)
  ∧ invoke Bench.lib 5 (CrudContext Bench.OtherWrapper) "save"
      [VRef Bench.fakeRecord; VStr "options"] Bench.stale.2
    = Ok (VStr "other", Bench.stale.2).
Proof. repeat split; vm_compute; reflexivity. Qed.

(** With the manager of the bench, [save] resolves to the record and
    [delete] to the options. *)
Example Bench_save :
  (invoke Bench.lib 5 Bench.mounted.1 "save" [VStr "options"] Bench.mounted.2
   = Ok (VRef Bench.fakeRecord, Bench.mounted.2))
  ∧ invoke Bench.lib 5 Bench.mounted.1 "delete" [VStr "options"] Bench.mounted.2
    = Ok (VStr "options", Bench.mounted.2).
Proof. split; vm_compute; reflexivity. Qed.

(** C2: the wrapper a render of [useCrud] has built is a new plain object
    (it did not exist when the [Record] constructor returned; its prototype
    is [Object.prototype]); it has [save] and [delete] as own data properties
    holding functions; and its own properties are, descriptor for descriptor,
    those of the [Record] instance, so every own property the constructor
    gave the instance is an own property of the wrapper. *)
Theorem wrapper_carries_record F n env arguments w v w' :
  Record_plain F →
  useCrud F n env arguments w = Ok (v, w') →
  rebuilds w w' →
  ∃ d h0 CrudRecord h1 actions wrapper constructed ow oi save delete,
    v = VRef wrapper
    ∧ Record_new F [nth 0 arguments VUndef; VRef d] h0 = Ok (CrudRecord, h1, actions)
    ∧ h1 !! CrudRecord = Some constructed
    ∧ h1 !! wrapper = None
    ∧ heap_of w' !! wrapper = Some ow
    ∧ proto ow = VRef ObjectPrototype ∧ extensible ow = true ∧ callee ow = None
    ∧ heap_of w' !! CrudRecord = Some oi
    ∧ props ow = props oi
    ∧ (∀ k dsc, props constructed !! k = Some dsc → props ow !! k = Some dsc)
    ∧ props ow !! "save" = Some (Data (VRef save) true true true)
    ∧ props ow !! "delete" = Some (Data (VRef delete) true true true)
    ∧ is_callable (heap_of w') (VRef save) = true
    ∧ is_callable (heap_of w') (VRef delete) = true.
Proof.
  intros HP H Hre.
  destruct (useCrud_rebuild _ _ _ _ _ _ _ HP H Hre)
    as (s & d & h0 & inst & h1 & actions & t & -> & HRec & Hwraps & _).
  destruct Hwraps as (oi & f & g & Hi & Hf & Hg & Ht & Hf' & Hg' & Hi' & Ht' & _).
  destruct (plain_record_inv _ _ (HP _ _ _ _ _ HRec)) as (oi0 & Hi0 & _ & Hs & Hd).
  rewrite Hi in Hi0. injection Hi0 as <-.
  set (ps := <["delete" := Data (VRef g) true true true]>
               (<["save" := Data (VRef f) true true true]> (props oi))) in *.
  exists d, h0, inst, h1, actions, t, oi, (with_props empty_object ps), (with_props oi ps), f, g.
  repeat split; try done.
  - intros k dsc Hk. simpl. unfold ps.
    rewrite !lookup_insert_ne; [done| |].
    + intros <-. rewrite (find_prop_own _ _ _ _ _ Hs Hi) in Hk. done.
    + intros <-. rewrite (find_prop_own _ _ _ _ _ Hd Hi) in Hk. done.
  - simpl. unfold ps. rewrite lookup_insert_ne by done. apply lookup_insert_eq.
  - simpl. apply lookup_insert_eq.
  - unfold is_callable. simpl. by rewrite Hf'.
  - unfold is_callable. simpl. by rewrite Hg'.
Qed.

Lemma wrapper_carries_record_witness :
  ∃ wrapper ow,
    Bench.mounted.1 = VRef wrapper
    ∧ heap_of Bench.mounted.2 !! wrapper = Some ow
    ∧ props ow !! "setAttribute" = Some (Bench.field (VRef Bench.setAttribute))
    ∧ (∃ save, props ow !! "save" = Some (Data (VRef save) true true true))
    ∧ ∃ delete, props ow !! "delete" = Some (Data (VRef delete) true true true).
Proof.
  destruct (wrapper_carries_record Bench.lib 5 Bench.Wrapper [VRef Bench.fakeRecord]
              Bench.initial Bench.mounted.1 Bench.mounted.2)
    as (d & h0 & inst & h1 & actions & t & oc & ow & oi & f & g & Hv & HRec & Hc & _ & Ht
        & _ & _ & _ & _ & _ & Hall & Hs & Hd & _).
  - apply Bench_Record_plain.
  - vm_compute. reflexivity.
  - vm_compute. discriminate.
  - exists t, ow. repeat split; [assumption|assumption| |exists f; assumption|exists g; assumption].
    apply Hall. simpl in HRec. unfold Bench.new_Record in HRec.
    injection HRec as <- <- _. rewrite lookup_insert_eq in Hc. injection Hc as <-.
    reflexivity.
Defined.

(** C4 (as amended): in every render that builds the wrapper (the first
    one, and each one in which the state or the record changed), the manager
    the two methods dispatch to is the value of [CrudContext] read in that
    render, that is, the manager the provider was given. *)
Theorem wrapper_dispatches_to_context_manager F n manager store arguments w v w' :
  Record_plain F →
  useCrud F n (CrudProvider manager store) arguments w = Ok (v, w') →
  rebuilds w w' →
  ∃ wrapper ow CrudRecord save delete,
    v = VRef wrapper
    ∧ heap_of w' !! wrapper = Some ow
    ∧ props ow !! "save" = Some (Data (VRef save) true true true)
    ∧ props ow !! "delete" = Some (Data (VRef delete) true true true)
    ∧ heap_of w' !! save = Some (function_object (CSave manager CrudRecord))
    ∧ heap_of w' !! delete = Some (function_object (CDelete manager CrudRecord))
    ∧ ∀ m args,
        invoke F (S m) v "save" args w' =
          manager_call F m manager "save" CrudRecord (nth 0 args VUndef) w'
        ∧ invoke F (S m) v "delete" args w' =
          manager_call F m manager "delete" CrudRecord (nth 0 args VUndef) w'.
Proof.
  intros HP H Hre.
  destruct (useCrud_rebuild _ _ _ _ _ _ _ HP H Hre)
    as (s & d & h0 & inst & h1 & actions & t & -> & HRec & Hwraps & _).
  pose proof Hwraps as (oi & f & g & Hi & Hf & Hg & Ht & Hf' & Hg' & Hi' & Ht' & _).
  eexists t, _, inst, f, g. repeat split; try done.
  - simpl. rewrite lookup_insert_ne by done. apply lookup_insert_eq.
  - simpl. apply lookup_insert_eq.
  - by eapply wrapper_methods.
  - by eapply wrapper_methods.
Qed.

Lemma wrapper_dispatches_to_context_manager_witness :
  ∃ wrapper ow save CrudRecord,
    Bench.mounted.1 = VRef wrapper
    ∧ heap_of Bench.mounted.2 !! wrapper = Some ow
    ∧ props ow !! "save" = Some (Data (VRef save) true true true)
    ∧ heap_of Bench.mounted.2 !! save
      = Some (function_object (CSave (VRef Bench.manager) CrudRecord)).
Proof.
  destruct (wrapper_dispatches_to_context_manager Bench.lib 5 (VRef Bench.manager)
              (VRef Bench.store) [VRef Bench.fakeRecord]
              Bench.initial Bench.mounted.1 Bench.mounted.2)
    as (t & ow & inst & f & g & Hv & Ht & Hs & _ & Hf & _).
  - apply Bench_Record_plain.
  - vm_compute. reflexivity.
  - vm_compute. discriminate.
  - exists t, ow, f, inst. repeat split; assumption.
Defined.

(** C4 as stated fails on a render that does not rebuild.  The first render
    was made under a provider holding [Bench.manager]; the provider is then
    given [Bench.otherManager], the record and the state being the same.
    [useMemo] depends on [reference] and [record] only, so the render under
    the new provider returns the cached wrapper, whose [save] is the closure
    that captured the first manager: it resolves to the record (the first
    manager's [save]), whereas the [save] of the manager now in context
    resolves to ["other"]. *)
Lemma stale_manager_counterexample :
  useCrud Bench.lib 5 Bench.OtherWrapper [VRef Bench.fakeRecord] Bench.mounted.2
    = Ok (Bench.mounted.1, Bench.stale.2)
  ∧ CrudContext Bench.OtherWrapper = VRef Bench.otherManager
  ∧ Bench.mounted.1 = VRef 21%positive
  ∧ (props <$> heap_of Bench.stale.2 !! 21%positive) ≫= (.!! "save")
    = Some (Data (VRef 19%positive) true true true)
  ∧ heap_of Bench.stale.2 !! 19%positive
    = Some (function_object (CSave (VRef Bench.manager) 18%positive))
  ∧ invoke Bench.lib 5 Bench.mounted.1 "save" [VStr "options"] Bench.stale.2
    = Ok (VRef Bench.fakeRecord, Bench.stale.2)
  ∧ manager_call Bench.lib 4 (CrudContext Bench.OtherWrapper) "save" 18%positive
      (VStr "options") Bench.stale.2
    = Ok (VStr "other", Bench.stale.2)
  ∧ invoke Bench.lib 5 Bench.mounted.1 "save" [VStr "options"] Bench.stale.2
    ≠ manager_call Bench.lib 4 (CrudContext Bench.OtherWrapper) "save" 18%positive
        (VStr "options") Bench.stale.2.
Proof.
  repeat split; try (vm_compute; reflexivity).
  vm_compute. intros H. discriminate H.
Qed.

(** ** The record argument *)

Lemma useCrud_mount F n env arguments h f :
  state_cell f = None → memo_cell f = None →
  let i := fresh (dom h) in
  let d := fresh (dom (<[i := empty_object]> h)) in
  let h0 := <[d := function_object CSetState]> (<[i := empty_object]> h) in
  let f0 := {| state_cell := Some (VRef i, d); memo_cell := None;
               queue := queue f; scheduled := scheduled f |} in
  useCrud F n env arguments {| heap_of := h; fiber_of := f |} =
    match nextCreate F n (CrudContext env) (nth 0 arguments VUndef) (VRef d)
            {| heap_of := h0; fiber_of := f0 |} with
    | Ok (v, w1) => Ok (v, with_memo w1 v [VRef i; nth 0 arguments VUndef])
    | Throw e => Throw e
    | Stuck => Stuck
    end.
Proof.
  intros Hs Hm i d h0 f0. unfold useCrud, useContext.
  unfold bind at 1. unfold ret at 1.
  rewrite (bind_Ok _ _ _ _ _ (alloc_Ok _ _ _)). fold i.
  unfold useState. unfold bind at 1. unfold bind at 1. unfold get_fiber. simpl.
  rewrite Hs. rewrite (bind_Ok _ _ _ _ _ (alloc_Ok _ _ _)). fold d h0.
  unfold bind, put_fiber, ret. simpl. rewrite Hm. fold f0.
  unfold useMemo, bind, get_fiber, put_fiber, ret. simpl.
  by destruct (nextCreate F n (CrudContext env) _ _ _) as [[v w1]| |].
Qed.

(** C5: whatever value is passed as the record (nothing is assumed of it),
    the first render hands exactly that value to the [Record] constructor,
    in a heap in which every object is as it was, and the outcome is the
    constructor's: if it throws, that exception is the render's; if it
    returns, the render returns a wrapper, and the wrapper's methods pass
    the instance's [_record] to the manager.  The module itself inspects
    nothing and raises nothing. *)
Theorem record_forwarded_unchecked F n env record rest h f :
  Record_plain F →
  state_cell f = None → memo_cell f = None →
  let i := fresh (dom h) in
  let d := fresh (dom (<[i := empty_object]> h)) in
  let h0 := <[d := function_object CSetState]> (<[i := empty_object]> h) in
  (∀ l o, h !! l = Some o → h0 !! l = Some o)
  ∧ match Record_new F [record; VRef d] h0 with
    | Ok (CrudRecord, h1, actions) =>
        ∃ wrapper w',
          useCrud F n env (record :: rest) {| heap_of := h; fiber_of := f |}
            = Ok (VRef wrapper, w')
          ∧ wraps (CrudContext env) h1 (heap_of w') CrudRecord wrapper
          ∧ ∀ m args,
              invoke F (S m) (VRef wrapper) "save" args w' =
                manager_call F m (CrudContext env) "save" CrudRecord (nth 0 args VUndef) w'
              ∧ invoke F (S m) (VRef wrapper) "delete" args w' =
                manager_call F m (CrudContext env) "delete" CrudRecord (nth 0 args VUndef) w'
    | Throw e =>
        useCrud F n env (record :: rest) {| heap_of := h; fiber_of := f |} = Throw e
    | Stuck =>
        useCrud F n env (record :: rest) {| heap_of := h; fiber_of := f |} = Stuck
    end.
Proof.
  intros HP Hs Hm i d h0. split.
  - intros l o Hl. unfold h0, d. apply alloc_keeps. unfold i. by apply alloc_keeps.
  - rewrite (useCrud_mount _ _ _ _ _ _ Hs Hm). fold i d h0. simpl nth.
    destruct (Record_new F [record; VRef d] h0) as [[[inst h1] actions]| |] eqn:HRec.
    + destruct (nextCreate_spec F n (CrudContext env) record (VRef d)
                  {| heap_of := h0;
                     fiber_of := {| state_cell := Some (VRef i, d); memo_cell := None;
                                    queue := queue f; scheduled := scheduled f |} |}
                  inst h1 actions HRec (HP _ _ _ _ _ HRec)) as (t & h' & Hrun & Hwraps).
      rewrite Hrun. eexists t, _. split; [done|]. split; [done|].
      intros m args. by eapply wrapper_methods.
    + unfold nextCreate, bind, construct. simpl. by rewrite HRec.
    + unfold nextCreate, bind, construct. simpl. by rewrite HRec.
Qed.

Lemma record_forwarded_unchecked_witness :
  ∃ wrapper w',
    useCrud Bench.lib 5 Bench.Wrapper [VNum 0] Bench.initial = Ok (VRef wrapper, w').
Proof.
  pose proof (record_forwarded_unchecked Bench.lib 5 Bench.Wrapper (VNum 0) []
                Bench.realm unmounted Bench_Record_plain eq_refl eq_refl) as [_ H].
  cbv zeta in H.
  destruct (Record_new Bench.lib _ _) as [[[cr h1] acts]| |] eqn:E.
  - destruct H as (t & w' & H & _). exists t, w'. exact H.
  - vm_compute in E. discriminate E.
  - vm_compute in E. discriminate E.
Defined.

(** ** Renders that recompute *)

(** When the state or the record is not the one the memo entry was computed
    for, the render stores a new entry. *)
Lemma changed_rebuilds F n env arguments w v w' pv s0 r0 s d :
  Record_plain F →
  memo_cell (fiber_of w) = Some (pv, [s0; r0]) →
  useCrud F n env arguments w = Ok (v, w') →
  state_cell (fiber_of w') = Some (s, d) →
  s ≠ s0 ∨ nth 0 arguments VUndef ≠ r0 →
  rebuilds w w'.
Proof.
  intros HP Hm H Hs Hne Heq.
  apply useCrud_inv in H as (s1 & d1 & w0 & Hcell & Hmemo & _ & _ & [[Hc ->]|(w1 & Hnc & ->)]).
  - rewrite Hcell in Hs. injection Hs as -> ->.
    rewrite Hmemo, Hm in Hc. injection Hc as _ Hs1 Hr1. destruct Hne; congruence.
  - apply nextCreate_inv in Hnc as (inst & h1 & actions & t & -> & _ & _ & Hfib); [|done].
    simpl in Hs, Heq. rewrite Hfib in Hs.
    destruct (enqueue_all_cells h1 (fiber_of w0) actions) as [_ Hsc].
    rewrite Hsc, Hcell in Hs. injection Hs as -> ->.
    rewrite Hm in Heq. injection Heq as _ Hs1 Hr1. destruct Hne; congruence.
Qed.

(** C7: when the hook recomputes, because the state it reads is not the one
    the cached wrapper was computed for (a setter call stored another value)
    or because the record argument is not the same, it returns a wrapper
    that is not the previous one, and the previous wrapper, which foreign
    code is taken to leave alone, is as it was: the hook does not write to
    it. *)
Theorem recompute_returns_new_wrapper F n env arguments w v w' prev oprev s0 r0 s d :
  Record_plain F → Record_fresh F → foreign_keeps F prev →
  memo_cell (fiber_of w) = Some (VRef prev, [s0; r0]) →
  heap_of w !! prev = Some oprev →
  useCrud F n env arguments w = Ok (v, w') →
  state_cell (fiber_of w') = Some (s, d) →
  s ≠ s0 ∨ nth 0 arguments VUndef ≠ r0 →
  ∃ wrapper ow,
    v = VRef wrapper
    ∧ wrapper ≠ prev
    ∧ heap_of w' !! wrapper = Some ow
    ∧ heap_of w' !! prev = Some oprev
    ∧ memo_cell (fiber_of w') = Some (VRef wrapper, [s; nth 0 arguments VUndef]).
Proof.
  intros HP HN HF Hm Hp H Hs Hne.
  pose proof (changed_rebuilds _ _ _ _ _ _ _ _ _ _ _ _ HP Hm H Hs Hne) as Hre.
  pose proof (useCrud_keeps _ _ _ _ _ _ _ _ _ HP HN HF H Hp) as Hp'.
  destruct (useCrud_rebuild _ _ _ _ _ _ _ HP H Hre)
    as (s1 & d1 & h0 & inst & h1 & actions & t & -> & HRec & Hwraps & Hs' & Hm' & _ & Hkeep).
  rewrite Hs' in Hs. injection Hs as -> ->.
  destruct Hwraps as (oi & f & g & _ & _ & _ & Ht & _ & _ & _ & Ht' & _).
  eexists t, _. repeat split; [|exact Ht'|exact Hp'|exact Hm'].
  intros ->. pose proof (Hkeep prev oprev HF Hp) as Hp0.
  destruct HF as [_ HFR].
  rewrite (HFR _ _ _ _ _ _ HRec Hp0) in Ht. done.
Qed.

Lemma recompute_returns_new_wrapper_witness :
  ∃ wrapper, Bench.recomputed.1 = VRef wrapper ∧ wrapper ≠ 21%positive.
Proof.
  edestruct (recompute_returns_new_wrapper Bench.lib 5 Bench.Wrapper [VRef Bench.fakeRecord]
               Bench.mutated.2 Bench.recomputed.1 Bench.recomputed.2 21%positive)
    as (t & ow & Hv & Hne & _).
  - apply Bench_Record_plain.
  - apply Bench_Record_fresh.
  - apply Bench_keeps. discriminate.
  - vm_compute. reflexivity.
  - vm_compute. reflexivity.
  - vm_compute. reflexivity.
  - vm_compute. reflexivity.
  - left. discriminate.
  - exists t. split; assumption.
Defined.

(** ** Mutations and re-renders *)





(** The setter of the bench is the function React created, and the call of
    [setAttribute] on the wrapper marks a render as scheduled. *)
Example Bench_mutation_schedules :
  setter_at (heap_of Bench.mutated.2) 17%positive = true
  ∧ scheduled (fiber_of Bench.mounted.2) = false
  ∧ scheduled (fiber_of Bench.mutated.2) = true
  ∧ queue (fiber_of Bench.mutated.2) = [VRef 22%positive].
Proof. repeat split; vm_compute; reflexivity. Qed.

(** The next wrapper shows the new attribute value. *)
Example Bench_rerender_shows_draft :
  ∃ wrapper, Bench.rerendered.1 = VRef wrapper
    ∧ (props <$> heap_of Bench.rerendered.2 !! wrapper) ≫= (.!! "name")
      = Some (Bench.field (VStr "Michiel de Vos"))
    ∧ (props <$> heap_of Bench.mounted.2 !! 21%positive) ≫= (.!! "name")
      = Some (Bench.field (VStr "exivity")).
Proof. exists 27%positive. repeat split; vm_compute; reflexivity. Qed.

(** ** What the hook does not depend on *)

(** C8: the outcome of the hook (the wrapper and the whole state it leaves)
    is the same under two providers that hold the same manager, whatever
    their stores, and for two argument lists with the same first argument,
    whatever follows it; and the store object the provider holds, which
    foreign code is taken to leave alone, is as it was after the render: the
    hook neither reads nor writes it. *)
Theorem store_and_options_ignored F n manager store1 store2 arguments1 arguments2 w :
  nth 0 arguments1 VUndef = nth 0 arguments2 VUndef →
  useCrud F n (CrudProvider manager store1) arguments1 w
    = useCrud F n (CrudProvider manager store2) arguments2 w
  ∧ ∀ s os v w',
      Record_plain F → Record_fresh F → foreign_keeps F s →
      store1 = VRef s → heap_of w !! s = Some os →
      useCrud F n (CrudProvider manager store1) arguments1 w = Ok (v, w') →
      heap_of w' !! s = Some os.
Proof.
  intros Hargs. split.
  - unfold useCrud. simpl. by rewrite Hargs.
  - intros s os v w' HP HN HF _ Hs H. by eapply useCrud_keeps.
Qed.

Lemma store_and_options_ignored_witness :
  useCrud Bench.lib 5 (CrudProvider (VRef Bench.manager) (VRef Bench.store))
    [VRef Bench.fakeRecord; VRef Bench.frozen] Bench.initial
  = useCrud Bench.lib 5 (CrudProvider (VRef Bench.manager) VUndef)
      [VRef Bench.fakeRecord] Bench.initial.
Proof.
  apply (store_and_options_ignored Bench.lib 5 (VRef Bench.manager) (VRef Bench.store) VUndef
           [VRef Bench.fakeRecord; VRef Bench.frozen] [VRef Bench.fakeRecord] Bench.initial).
  reflexivity.
Defined.

(** * Further properties *)

(** ** [assign]: composition, edge cases, frame *)

Lemma assign_forEach_cons ob s o w :
  assign_forEach ob (s :: o) w = (forEach_callback ob s ;;; assign_forEach ob o) w.
Proof. done. Qed.

Lemma assign_forEach_app ob o1 o2 w :
  assign_forEach ob (o1 ++ o2) w = (assign_forEach ob o1 ;;; assign_forEach ob o2) w.
Proof.
  revert w. induction o1 as [|s o1 IH]; intros w; [done|].
  rewrite <- app_comm_cons. unfold bind. rewrite !assign_forEach_cons. unfold bind.
  destruct (forEach_callback ob s w) as [[[] w1]| |]; [|done..].
  rewrite IH. done.
Qed.

(** X1: copying two lists of sources one after the other is copying their
    concatenation: [assign(assign(ob, ...o1), ...o2)] and
    [assign(ob, ...o1, ...o2)] have the same outcome, for every target and
    all sources, exceptions included. *)
Theorem assign_app ob o1 o2 w :
  assign ob (o1 ++ o2) w = (let* t := assign ob o1 in assign t o2) w.
Proof.
  unfold assign. unfold bind at 1. rewrite assign_forEach_app.
  unfold bind. by destruct (assign_forEach ob o1 w) as [[[] w1]| |].
Qed.

(** X2: with no source, or with sources that are all [undefined], [assign]
    returns its first argument, whatever it is (a primitive too), and
    changes nothing. *)
Theorem assign_nothing_to_copy ob o w :
  Forall (λ s, s = VUndef) o → assign ob o w = Ok (ob, w).
Proof.
  intros Ho. unfold assign, bind.
  assert (H : assign_forEach ob o w = Ok (tt, w)); [|by rewrite H].
  induction Ho as [|s o -> _ IH]; [done|].
  simpl. unfold bind, get_heap. simpl. exact IH.
Qed.

Lemma assign_nothing_to_copy_witness :
  assign (VNum 0) [VUndef; VUndef] Bench.initial = Ok (VNum 0, Bench.initial)
  ∧ assign (VRef Bench.frozen) [] Bench.initial = Ok (VRef Bench.frozen, Bench.initial).
Proof.
  split.
  - apply (assign_nothing_to_copy (VNum 0) [VUndef; VUndef] Bench.initial).
    repeat constructor.
  - apply (assign_nothing_to_copy (VRef Bench.frozen) [] Bench.initial). constructor.
Defined.

(** X3: when the first argument is not an object and some source is not
    [undefined], [assign] throws a [TypeError]
    ([Object.defineProperties] called on a non-object, or a [null]
    source). *)
Theorem assign_primitive_target ob o w :
  is_object ob = false →
  Forall (allocated (heap_of w)) o →
  Exists (λ s, s ≠ VUndef) o →
  assign ob o w = Throw TypeError.
Proof.
  intros Hob Hall Hex. unfold assign, bind.
  assert (H : assign_forEach ob o w = Throw TypeError); [|by rewrite H].
  induction o as [|s o IH]; [by apply Exists_nil in Hex|].
  apply Forall_cons in Hall as [Hs Hall].
  simpl. unfold bind at 1. unfold get_heap. unfold bind at 1.
  destruct s as [| | b | x | x | l]; simpl.
  - apply Exists_cons in Hex as [Hex|Hex]; [done|]. unfold ret. by apply IH.
  - done.
  - unfold bind, ret. by destruct ob.
  - unfold bind, ret. by destruct ob.
  - unfold bind, ret. by destruct ob.
  - destruct Hs as [ol Hl]. rewrite bool_decide_eq_true_2.
    2:{ rewrite Hl. by destruct (callee ol). }
    unfold bind, read_object. rewrite Hl. unfold ret. by destruct ob.
Qed.

Lemma assign_primitive_target_witness :
  assign (VStr "x") [VUndef; VRef Bench.fakeRecord] Bench.initial = Throw TypeError.
Proof.
  apply (assign_primitive_target (VStr "x") [VUndef; VRef Bench.fakeRecord] Bench.initial).
  - reflexivity.
  - repeat constructor. eexists. vm_compute. reflexivity.
  - right. left. discriminate.
Defined.

Lemma touches_only_refl ob w : touches_only ob w w.
Proof.
  repeat split; try done.
  intros t _. destruct (heap_of w !! t) as [ot|] eqn:Ht; [|done].
  exists (props ot). by rewrite with_props_id.
Qed.

Lemma touches_only_trans ob w1 w2 w3 :
  touches_only ob w1 w2 → touches_only ob w2 w3 → touches_only ob w1 w3.
Proof.
  intros (Hf1 & Ho1 & Ht1) (Hf2 & Ho2 & Ht2). repeat split.
  - congruence.
  - intros l Hl. rewrite Ho2, Ho1; done.
  - intros t Hob. specialize (Ht1 t Hob). specialize (Ht2 t Hob).
    destruct (heap_of w1 !! t) as [ot|].
    + destruct Ht1 as (ps1 & H1 & Hk1). rewrite H1 in Ht2.
      destruct Ht2 as (ps2 & H2 & Hk2). exists ps2. split; [done|].
      intros k Hk. apply Hk2. simpl. by apply Hk1.
    + by rewrite Ht1 in Ht2.
Qed.

Lemma insert_all_keeps_keys p ds k :
  is_Some (p !! k) → is_Some (insert_all p ds !! k).
Proof.
  revert p. induction ds as [|[k' d] ds IH]; intros p Hk; [done|].
  apply (IH (<[k' := d]> p)). simpl.
  destruct (decide (k' = k)) as [->|Hne].
  - rewrite lookup_insert_eq. by eexists.
  - by rewrite lookup_insert_ne.
Qed.

Lemma define_all_touches l ds w u w' :
  define_all l ds w = Ok (u, w') → touches_only (VRef l) w w'.
Proof.
  intros H. destruct (heap_of w !! l) as [o|] eqn:Hl.
  - rewrite (define_all_spec _ _ _ _ Hl) in H.
    destruct (definable (props o) (extensible o) ds); [|done].
    injection H as _ <-. repeat split; simpl.
    + intros l' Hne. rewrite lookup_insert_ne; [done|congruence].
    + intros t [= <-]. rewrite Hl. eexists. rewrite lookup_insert_eq. split; [done|].
      intros k. apply insert_all_keeps_keys.
  - destruct ds as [|[k d] ds].
    + injection H as _ <-. apply touches_only_refl.
    + simpl in H. unfold bind, defineProperty, bind, read_object in H. by rewrite Hl in H.
Qed.

Lemma forEach_callback_touches ob s w u w' :
  forEach_callback ob s w = Ok (u, w') → touches_only ob w w'.
Proof.
  unfold forEach_callback. unfold bind at 1. unfold get_heap.
  case_bool_decide as Hty.
  - intros H. step_bind H as ds w1 Hds. step_bind H as v w2 Hdef.
    unfold ret in H. injection H as _ <-.
    assert (w1 = w) as ->.
    { destruct s as [| | | | |l]; simpl in Hds; unfold throw, ret in Hds; try congruence.
      step_bind Hds as o w0 Hr. unfold read_object in Hr.
      destruct (heap_of w !! l); [|done]. injection Hr as _ <-.
      unfold ret in Hds. congruence. }
    destruct ob as [| | | | |t]; try done.
    unfold defineProperties in Hdef. step_bind Hdef as u1 w3 Hall.
    unfold ret in Hdef. injection Hdef as _ <-. by eapply define_all_touches.
  - unfold ret. intros [= _ <-]. apply touches_only_refl.
Qed.

(** X4: whenever [assign] returns, it has changed nothing but the own
    properties of its target: the state of the component and every other
    object (the sources among them) are as they were, no object was created,
    the target keeps every key it had (a property is redefined, never
    removed), its prototype and its extensibility. *)
Theorem assign_touches_only_target ob o w v w' :
  assign ob o w = Ok (v, w') → touches_only ob w w'.
Proof.
  unfold assign. intros H. step_bind H as u w1 Hfor.
  unfold ret in H. injection H as _ <-. clear v.
  revert w u Hfor. induction o as [|s o IH]; intros w u H.
  - injection H as _ <-. apply touches_only_refl.
  - rewrite assign_forEach_cons in H. step_bind H as u1 w2 Hcb.
    eapply touches_only_trans; [by eapply forEach_callback_touches|by eapply IH].
Qed.

Lemma assign_touches_only_target_witness :
  touches_only (VRef Bench.store) Bench.initial
    (Bench.run (assign (VRef Bench.store) [VRef Bench.fakeRecord; VStr "ab"]) Bench.initial).2.
Proof.
  apply (assign_touches_only_target (VRef Bench.store) [VRef Bench.fakeRecord; VStr "ab"]
           Bench.initial (VRef Bench.store)).
  vm_compute. reflexivity.
Defined.

Lemma redefinable_refl c : redefinable c c = true.
Proof.
  unfold redefinable. destruct (configurable c) eqn:Hc; [done|]. simpl.
  rewrite bool_decide_eq_true_2 by done. simpl.
  destruct c as [v [] e cf|g s e cf]; simpl; [done| |];
    unfold same_value; by rewrite !bool_decide_eq_true_2.
Qed.

Lemma definable_same p ext ds :
  (∀ k d, (k, d) ∈ ds → p !! k = Some d) →
  definable p ext ds = true ∧ insert_all p ds = p.
Proof.
  induction ds as [|[k d] ds IH]; intros Hds; [done|].
  assert (Hk : p !! k = Some d) by (apply Hds; left).
  simpl. unfold may_define. rewrite Hk, redefinable_refl. simpl.
  change (insert_all p ((k, d) :: ds)) with (insert_all (<[k := d]> p) ds).
  rewrite (insert_id _ _ _ Hk). apply IH.
  intros k' d' Hin. apply Hds. by right.
Qed.

(** X5: copying an object onto itself changes nothing and cannot fail,
    whatever the object (frozen, with accessors, with non-configurable
    properties): each of its properties is redefined with the descriptor it
    has. *)
Theorem assign_self target o w ot :
  heap_of w !! target = Some ot →
  Forall (λ s, s = VRef target ∨ s = VUndef) o →
  assign (VRef target) o w = Ok (VRef target, w).
Proof.
  intros Ht Ho. unfold assign, bind.
  assert (H : assign_forEach (VRef target) o w = Ok (tt, w)); [|by rewrite H].
  induction Ho as [|s o Hs _ IH]; [done|].
  rewrite assign_forEach_cons. unfold bind.
  assert (Hcb : forEach_callback (VRef target) s w = Ok (tt, w)); [|by rewrite Hcb].
  destruct Hs as [-> | ->]; [|done].
  unfold forEach_callback, bind, get_heap. simpl.
  rewrite bool_decide_eq_true_2.
  2:{ rewrite Ht. by destruct (callee ot). }
  unfold bind, read_object. rewrite Ht. unfold ret at 1.
  rewrite (define_all_spec _ _ _ _ Ht).
  destruct (definable_same (props ot) (extensible ot) (map_to_list (props ot))) as [-> ->].
  { intros k d Hin. by apply elem_of_map_to_list. }
  unfold ret. by rewrite with_props_id, insert_id, world_eta.
Qed.

Lemma assign_self_witness :
  assign (VRef Bench.frozen) [VRef Bench.frozen; VUndef; VRef Bench.frozen] Bench.initial
  = Ok (VRef Bench.frozen, Bench.initial).
Proof.
  eapply (assign_self Bench.frozen [VRef Bench.frozen; VUndef; VRef Bench.frozen] Bench.initial).
  - vm_compute. reflexivity.
  - repeat constructor; (by left) || (by right).
Defined.

(** One turn of the callback on an object target, for every source but
    [null] and a dangling reference. *)
Lemma forEach_callback_spec target s w ot :
  heap_of w !! target = Some ot →
  allocated (heap_of w) s →
  s ≠ VNull →
  forEach_callback (VRef target) s w =
    if definable (props ot) (extensible ot) (map_to_list (own_props_of (heap_of w) s))
    then Ok (tt, {| heap_of := <[target := with_props ot (own_props_of (heap_of w) s ∪ props ot)]>
                                 (heap_of w);
                    fiber_of := fiber_of w |})
    else Throw TypeError.
Proof.
  intros Ht Hal Hs.
  assert (Hcopy : ∀ (m : gmap string desc),
            ((define_all target (map_to_list m) ;;; ret (VRef target)) ;;; ret tt) w =
            if definable (props ot) (extensible ot) (map_to_list m)
            then Ok (tt, {| heap_of := <[target := with_props ot (m ∪ props ot)]> (heap_of w);
                            fiber_of := fiber_of w |})
            else Throw TypeError).
  { intros m. unfold bind. rewrite (define_all_spec _ _ _ _ Ht).
    destruct (definable _ _ _); [|done]. unfold ret. by rewrite insert_all_map_to_list. }
  unfold forEach_callback. unfold bind at 1. unfold get_heap.
  destruct s as [| | b | x | x | l]; simpl; try done.
  - rewrite map_to_list_empty. simpl. unfold ret.
    by rewrite (left_id_L ∅ (∪)), with_props_id, insert_id, world_eta.
  - unfold bind at 1. unfold ret at 1. apply (Hcopy ∅).
  - unfold bind at 1. unfold ret at 1. apply (Hcopy ∅).
  - unfold bind at 1. unfold ret at 1. apply (Hcopy (string_props x)).
  - destruct Hal as [ol Hl]. rewrite Hl.
    rewrite bool_decide_eq_true_2 by (by destruct (callee ol)).
    unfold bind at 1. unfold bind at 1. unfold read_object. rewrite Hl. unfold ret at 1.
    apply (Hcopy (props ol)).
Qed.

(** X6: one source that is not [null], copied onto an extensible object
    without own properties (as [useCrud] does with [{}]), always succeeds,
    and the target then has exactly the own properties of the source, with
    their descriptors: those of the object (accessors, read-only and
    non-configurable properties included), the characters and [length] of a
    string, none for a number, a boolean or [undefined]. *)
Theorem assign_onto_empty target s w ot :
  heap_of w !! target = Some ot →
  props ot = ∅ →
  extensible ot = true →
  s ≠ VNull →
  allocated (heap_of w) s →
  assign (VRef target) [s] w =
    Ok (VRef target,
        {| heap_of := <[target := with_props ot (own_props_of (heap_of w) s)]> (heap_of w);
           fiber_of := fiber_of w |}).
Proof.
  intros Ht Hp He Hs Hal.
  unfold assign. unfold bind at 1. rewrite assign_forEach_cons. unfold bind at 1.
  rewrite (forEach_callback_spec _ _ _ _ Ht Hal Hs), He, definable_fresh.
  - simpl. unfold ret. by rewrite Hp, (right_id_L ∅ (∪)).
  - apply NoDup_fst_map_to_list.
  - intros k _. rewrite Hp. apply lookup_empty.
Qed.

Lemma assign_onto_empty_witness :
  assign (VRef Bench.store) [VRef Bench.frozen] Bench.initial =
    Ok (VRef Bench.store,
        {| heap_of := <[Bench.store := with_props empty_object
                                         (own_props_of Bench.realm (VRef Bench.frozen))]>
                        Bench.realm;
           fiber_of := unmounted |}).
Proof.
  apply (assign_onto_empty Bench.store (VRef Bench.frozen) Bench.initial empty_object).
  - vm_compute. reflexivity.
  - reflexivity.
  - reflexivity.
  - discriminate.
  - eexists. vm_compute. reflexivity.
Defined.

Lemma own_props_of_target (h : heap) target ot :
  h !! target = Some ot →
  ∀ s, own_props_of h s = contribution h target (props ot) s.
Proof.
  intros Ht s. destruct s as [| | | | |l]; simpl; try done.
  destruct (decide (l = target)) as [->|]; [|done]. by rewrite Ht.
Qed.

Lemma contribution_insert h target ot acc s :
  contribution (<[target := ot]> h) target acc s = contribution h target acc s.
Proof.
  destruct s as [| | | | |l]; simpl; try done.
  destruct (decide (l = target)); [done|]. by rewrite lookup_insert_ne.
Qed.

Lemma merged_all_insert h target ot p o :
  merged_all (<[target := ot]> h) target p o = merged_all h target p o.
Proof.
  revert p. induction o as [|s o IH]; intros p; [done|].
  unfold merged_all in *. simpl. by rewrite contribution_insert, IH.
Qed.

Lemma forEach_callback_inv target s w ot u w' :
  heap_of w !! target = Some ot →
  forEach_callback (VRef target) s w = Ok (u, w') →
  w' = {| heap_of := <[target := with_props ot
                                    (contribution (heap_of w) target (props ot) s ∪ props ot)]>
                       (heap_of w);
          fiber_of := fiber_of w |}.
Proof.
  intros Ht H.
  assert (Hs : s ≠ VNull).
  { intros ->. by unfold forEach_callback, bind, get_heap in H. }
  assert (Hal : allocated (heap_of w) s).
  { destruct s as [| | | | |l]; try done. simpl.
    destruct (heap_of w !! l) as [ol|] eqn:Hl; [by eexists|].
    unfold forEach_callback, bind, get_heap, typeof, getOwnPropertyDescriptors in H.
    rewrite Hl in H. rewrite bool_decide_eq_true_2 in H by done.
    unfold bind, read_object in H. by rewrite Hl in H. }
  rewrite (forEach_callback_spec _ _ _ _ Ht Hal Hs) in H.
  destruct (definable _ _ _); [|done].
  injection H as _ <-. by rewrite (own_props_of_target _ _ _ Ht).
Qed.

(** X7: whenever [assign] returns on an object target, the own properties of
    the target are the ones it had, overridden in order by the own
    properties of each source (the characters and [length] of a string
    included); a later source wins, and the target given as a source
    contributes what it holds by then.  No hypothesis is made on the
    attributes of the properties. *)
Theorem assign_result target o w ot v w' :
  heap_of w !! target = Some ot →
  assign (VRef target) o w = Ok (v, w') →
  w' = {| heap_of := <[target := with_props ot (merged_all (heap_of w) target (props ot) o)]>
                       (heap_of w);
          fiber_of := fiber_of w |}.
Proof.
  intros Ht H. unfold assign in H. step_bind H as u w1 Hfor.
  unfold ret in H. injection H as _ <-. clear v.
  revert w ot u Ht Hfor. induction o as [|s o IH]; intros w ot u Ht H.
  - injection H as _ <-. unfold merged_all. simpl.
    by rewrite with_props_id, insert_id, world_eta.
  - rewrite assign_forEach_cons in H. step_bind H as u1 w2 Hcb.
    apply (forEach_callback_inv _ _ _ _ _ _ Ht) in Hcb. subst w2.
    apply (IH _ (with_props ot (contribution (heap_of w) target (props ot) s ∪ props ot))) in H.
    + rewrite H. simpl. by rewrite insert_insert_eq, merged_all_insert.
    + simpl. by rewrite lookup_insert_eq.
Qed.

Lemma assign_result_witness :
  (Bench.run (assign (VRef Bench.store) [VStr "ab"; VRef Bench.store; VRef Bench.frozen])
     Bench.initial).2 =
  {| heap_of := <[Bench.store :=
                    with_props empty_object
                      (merged_all Bench.realm Bench.store ∅
                         [VStr "ab"; VRef Bench.store; VRef Bench.frozen])]> Bench.realm;
     fiber_of := unmounted |}.
Proof.
  apply (assign_result Bench.store [VStr "ab"; VRef Bench.store; VRef Bench.frozen]
           Bench.initial empty_object (VRef Bench.store)).
  - vm_compute. reflexivity.
  - vm_compute. reflexivity.
Defined.

Lemma merged_union h target p o :
  merged h target p o = merged h target ∅ o ∪ p.
Proof.
  revert p. induction o as [|s o IH]; intros p.
  - unfold merged. simpl. by rewrite (left_id_L ∅ (∪)).
  - change (merged h target p (s :: o)) with (merged h target (source_props h target s ∪ p) o).
    change (merged h target ∅ (s :: o)) with (merged h target (source_props h target s ∪ ∅) o).
    rewrite (IH (source_props h target s ∪ p)), (IH (source_props h target s ∪ ∅)).
    by rewrite (right_id_L ∅ (∪)), (assoc_L (∪)).
Qed.

Lemma merged_twice h target p o :
  merged h target (merged h target p o) o = merged h target p o.
Proof.
  rewrite (merged_union h target (merged h target p o)), (merged_union h target p).
  by rewrite (assoc_L (∪)), (idemp_L (∪)).
Qed.

Lemma merged_configurable h target p o :
  all_configurable p → Forall (copyable h) o → all_configurable (merged h target p o).
Proof.
  intros Hp Ho. revert p Hp. induction Ho as [|s o Hs _ IH]; intros p Hp; [done|].
  apply (IH (source_props h target s ∪ p)).
  apply map_Forall_union_2; [|done]. by apply source_props_configurable.
Qed.

(** X8: copying is idempotent where it cannot fail.  For an extensible
    target whose own properties are configurable and sources none of which
    is [null] and whose own properties are configurable, a second call of
    [assign] with the same arguments returns the target again and leaves
    the world exactly as the first call left it. *)
Theorem assign_twice target o w ot v w' :
  heap_of w !! target = Some ot →
  extensible ot = true →
  all_configurable (props ot) →
  Forall (copyable (heap_of w)) o →
  assign (VRef target) o w = Ok (v, w') →
  assign (VRef target) o w' = Ok (v, w').
Proof.
  intros Ht He Hc Ho H.
  unfold assign, bind in H. rewrite (assign_forEach_spec _ _ _ _ Ht He Hc Ho) in H.
  unfold ret in H. injection H as <- <-.
  set (m := merged (heap_of w) target (props ot) o).
  unfold assign, bind.
  rewrite (assign_forEach_spec _ _ _ (with_props ot m)); simpl.
  - unfold ret. rewrite insert_insert_eq, merged_insert. unfold m.
    by rewrite merged_twice.
  - by rewrite lookup_insert_eq.
  - done.
  - by apply merged_configurable.
  - eapply Forall_impl; [exact Ho|]. intros s. apply copyable_insert.
    by apply merged_configurable.
Qed.

Lemma assign_twice_witness :
  assign (VRef Bench.store) [VRef Bench.fakeRecord; VNum 0; VRef Bench.manager]
    (Bench.run (assign (VRef Bench.store) [VRef Bench.fakeRecord; VNum 0; VRef Bench.manager])
       Bench.initial).2
  = Ok (VRef Bench.store,
        (Bench.run (assign (VRef Bench.store) [VRef Bench.fakeRecord; VNum 0; VRef Bench.manager])
           Bench.initial).2).
Proof.
  apply (assign_twice Bench.store [VRef Bench.fakeRecord; VNum 0; VRef Bench.manager]
           Bench.initial empty_object).
  - vm_compute. reflexivity.
  - reflexivity.
  - apply map_Forall_empty.
  - repeat constructor.
    + exists (with_props empty_object (<["type" := Bench.field (VStr "company")]> ∅)).
      split; [vm_compute; reflexivity|].
      apply map_Forall_insert_2; [reflexivity|apply map_Forall_empty].
    + exists (with_props empty_object
                (<["save" := Bench.method (VRef Bench.manager_save)]>
                   (<["delete" := Bench.method (VRef Bench.manager_delete)]> ∅))).
      split; [vm_compute; reflexivity|].
      repeat (apply map_Forall_insert_2; [reflexivity|]). apply map_Forall_empty.
  - vm_compute. reflexivity.
Defined.

Lemma allocated_insert (h : heap) t o x :
  is_Some (h !! t) → allocated h x → allocated (<[t := o]> h) x.
Proof.
  intros Ht. destruct x as [| | | | |l]; simpl; try done.
  intros Hl. destruct (decide (l = t)) as [->|Hne].
  - rewrite lookup_insert_eq. by eexists.
  - by rewrite lookup_insert_ne.
Qed.

(** One turn of the callback on values that are not dangling: it throws a
    [TypeError], or it returns and nothing is deallocated. *)
Lemma forEach_callback_progress ob s w :
  allocated (heap_of w) ob → allocated (heap_of w) s →
  forEach_callback ob s w = Throw TypeError
  ∨ ∃ w1, forEach_callback ob s w = Ok (tt, w1)
          ∧ ∀ x, allocated (heap_of w) x → allocated (heap_of w1) x.
Proof.
  intros Hob Hs.
  destruct (decide (s = VNull)) as [->|Hnull]; [by left|].
  destruct (decide (s = VUndef)) as [->|Hundef]; [right; by exists w|].
  destruct ob as [| | b | x | x | t].
  1-5: left; unfold forEach_callback, bind, get_heap;
       destruct s as [| | b' | x' | x' | l]; simpl; try done;
       destruct Hs as [ol Hl]; rewrite Hl;
       rewrite bool_decide_eq_true_2 by (by destruct (callee ol));
       unfold bind, read_object; by rewrite Hl.
  destruct Hob as [ot Ht].
  rewrite (forEach_callback_spec _ _ _ _ Ht Hs Hnull).
  destruct (definable _ _ _); [|by left].
  right. eexists. split; [done|]. simpl. intros x. apply allocated_insert. by eexists.
Qed.

(** X9: a [null] source makes [assign] throw a [TypeError], whatever the
    target and the other sources ([Object.assign] skips [null];
    [Object.getOwnPropertyDescriptors] does not accept it).  Only
    [undefined] is skipped. *)
Theorem assign_null_source ob o w :
  allocated (heap_of w) ob →
  Forall (allocated (heap_of w)) o →
  VNull ∈ o →
  assign ob o w = Throw TypeError.
Proof.
  intros Hob Ho Hin. unfold assign, bind.
  assert (H : assign_forEach ob o w = Throw TypeError); [|by rewrite H].
  revert w Hob Ho. induction o as [|s o IH]; intros w Hob Ho.
  - by apply elem_of_nil in Hin.
  - apply Forall_cons in Ho as [Hs Ho].
    rewrite assign_forEach_cons. unfold bind.
    apply elem_of_cons in Hin as [<-|Hin]; [done|].
    destruct (forEach_callback_progress ob s w Hob Hs) as [->|(w1 & -> & Hkeep)]; [done|].
    apply IH; [done|by apply Hkeep|].
    eapply Forall_impl; [exact Ho|]. exact Hkeep.
Qed.

Lemma assign_null_source_witness :
  assign (VRef Bench.store) [VRef Bench.fakeRecord; VNull; VUndef] Bench.initial
  = Throw TypeError.
Proof.
  apply (assign_null_source (VRef Bench.store) [VRef Bench.fakeRecord; VNull; VUndef]
           Bench.initial).
  - eexists. vm_compute. reflexivity.
  - repeat constructor. eexists. vm_compute. reflexivity.
  - right. left.
Defined.

(** ** [useCrud]: the cache, and the edges of the wrapper *)

(** X10: a render with no update pending and the record it last built for
    returns the cached wrapper itself, whatever manager is then in context
    and whatever the libraries are: the [Record] constructor is not called
    and no function is run.  The state of the component is unchanged and the
    heap has gained one object, the unused initial state [{}]. *)
Theorem useCrud_cached F n env arguments w s d v0 :
  state_cell (fiber_of w) = Some (s, d) →
  queue (fiber_of w) = [] →
  memo_cell (fiber_of w) = Some (v0, [s; nth 0 arguments VUndef]) →
  useCrud F n env arguments w =
    Ok (v0, {| heap_of := <[fresh (dom (heap_of w)) := empty_object]> (heap_of w);
               fiber_of := fiber_of w |}).
Proof.
  intros Hs Hq Hm. destruct w as [h [sc mc q sch]]. simpl in *. subst sc q mc.
  unfold useCrud, useContext. unfold bind at 1. unfold ret at 1.
  rewrite (bind_Ok _ _ _ _ _ (alloc_Ok _ _ _)).
  unfold useState, useMemo, bind, get_fiber, put_fiber, ret. simpl.
  by rewrite bool_decide_eq_true_2.
Qed.

Lemma useCrud_cached_witness :
  useCrud Edge.sealed_lib 0 Bench.OtherWrapper [VRef Bench.fakeRecord] Bench.mounted.2 =
    Ok (Bench.mounted.1,
        {| heap_of := <[fresh (dom (heap_of Bench.mounted.2)) := empty_object]>
                        (heap_of Bench.mounted.2);
           fiber_of := fiber_of Bench.mounted.2 |}).
Proof.
  apply (useCrud_cached Edge.sealed_lib 0 Bench.OtherWrapper [VRef Bench.fakeRecord]
           Bench.mounted.2 (VRef 16%positive) 17%positive Bench.mounted.1).
  - vm_compute. reflexivity.
  - vm_compute. reflexivity.
  - vm_compute. reflexivity.
Defined.

(** X11: when the [Record] constructor returns an object that is not
    extensible and has no [save] (own or inherited), the first render throws
    a [TypeError]: the assignment [CrudRecord.save = ...] is made in strict
    code. *)
Theorem useCrud_sealed_instance F n env arguments h f inst h1 actions oi :
  state_cell f = None → memo_cell f = None →
  let i := fresh (dom h) in
  let d := fresh (dom (<[i := empty_object]> h)) in
  let h0 := <[d := function_object CSetState]> (<[i := empty_object]> h) in
  Record_new F [nth 0 arguments VUndef; VRef d] h0 = Ok (inst, h1, actions) →
  h1 !! inst = Some oi →
  extensible oi = false →
  find_prop (size h1) h1 (VRef inst) "save" = Ok None →
  useCrud F n env arguments {| heap_of := h; fiber_of := f |} = Throw TypeError.
Proof.
  intros Hs Hm i d h0 HRec Hi He Hsave.
  rewrite (useCrud_mount F n env arguments h f Hs Hm). fold i d h0.
  unfold nextCreate.
  rewrite (bind_Ok _ _ _ _ _
             (construct_Ok _ {| heap_of := h0;
                                  fiber_of := {| state_cell := Some (VRef i, d); memo_cell := None;
                                                 queue := queue f; scheduled := scheduled f |} |}
                _ _ _ HRec)).
  rewrite (bind_Ok _ _ _ _ _ (alloc_Ok _ _ _)).
  assert (Hne : fresh (dom h1) ≠ inst) by (by eapply fresh_ne).
  unfold bind at 1. unfold set. unfold bind at 1. unfold get_heap. simpl.
  erewrite find_prop_mono; [|exact Hsave|apply size_insert_le|].
  2:{ apply insert_subseteq, fresh_lookup. }
  unfold bind, read_object. simpl. rewrite lookup_insert_ne by done. rewrite Hi.
  by rewrite (find_prop_own _ _ _ _ _ Hsave Hi), He.
Qed.

Lemma useCrud_sealed_instance_witness :
  useCrud Edge.sealed_lib 5 Bench.Wrapper [VRef Bench.fakeRecord] Bench.initial
  = Throw TypeError.
Proof.
  eapply (useCrud_sealed_instance Edge.sealed_lib 5 Bench.Wrapper [VRef Bench.fakeRecord]
            Bench.realm unmounted).
  - reflexivity.
  - reflexivity.
  - reflexivity.
  - apply lookup_insert_eq.
  - reflexivity.
  - vm_compute. reflexivity.
Defined.

(** X12: when the value of [CrudContext] is [undefined] or [null], [save]
    and [delete] on a wrapper a render has built throw a [TypeError]:
    reading [crudManager.save] fails, before the record is read. *)
Theorem no_manager_methods_throw F n env arguments w v w' :
  Record_plain F →
  useCrud F n env arguments w = Ok (v, w') →
  rebuilds w w' →
  CrudContext env = VUndef ∨ CrudContext env = VNull →
  ∀ m args,
    invoke F (S m) v "save" args w' = Throw TypeError
    ∧ invoke F (S m) v "delete" args w' = Throw TypeError.
Proof.
  intros HP H Hre Hctx m args.
  destruct (useCrud_rebuild _ _ _ _ _ _ _ HP H Hre)
    as (s & d & h0 & inst & h1 & actions & t & -> & _ & Hwraps & _).
  destruct (wrapper_methods F m _ _ _ _ _ args Hwraps) as [-> ->].
  unfold manager_call, get, bind, get_heap.
  by destruct Hctx as [-> | ->].
Qed.

Lemma no_manager_methods_throw_witness :
  invoke Bench.lib 5 Edge.orphan.1 "save" [VStr "options"] Edge.orphan.2 = Throw TypeError
  ∧ invoke Bench.lib 5 Edge.orphan.1 "delete" [VStr "options"] Edge.orphan.2 = Throw TypeError.
Proof.
  refine (no_manager_methods_throw Bench.lib 5 Edge.NoProvider [VRef Bench.fakeRecord]
            Bench.initial Edge.orphan.1 Edge.orphan.2 Bench_Record_plain _ _ _
            4 [VStr "options"]).
  - vm_compute. reflexivity.
  - vm_compute. discriminate.
  - left. reflexivity.
Defined.

(** X13: when the manager in context has no property of the method's name
    (own or inherited) and [_record] is a data property of the instance, the
    wrapper's method throws a [TypeError]: [undefined] is called, after the
    record was read; nothing is changed. *)
Theorem missing_method_throws F n env arguments w v w' :
  Record_plain F →
  useCrud F n env arguments w = Ok (v, w') →
  rebuilds w w' →
  ∃ d h0 CrudRecord h1 actions,
    Record_new F [nth 0 arguments VUndef; VRef d] h0 = Ok (CrudRecord, h1, actions)
    ∧ ∀ method rv m args,
        method = "save" ∨ method = "delete" →
        get_property (heap_of w') (CrudContext env) method = Ok None →
        data_field (heap_of w') (VRef CrudRecord) "_record" rv →
        invoke F (S (S m)) v method args w' = Throw TypeError.
Proof.
  intros HP H Hre.
  destruct (useCrud_rebuild _ _ _ _ _ _ _ HP H Hre)
    as (s & d & h0 & inst & h1 & actions & t & -> & HRec & Hwraps & _).
  exists d, h0, inst, h1, actions. split; [done|].
  intros method rv m args Hmethod Hnone (wr & en & cf & Hrec).
  destruct (wrapper_methods F (S m) _ _ _ _ _ args Hwraps) as [Hs Hd].
  assert (Hcall : manager_call F (S m) (CrudContext env) method inst (nth 0 args VUndef) w'
                  = Throw TypeError).
  { unfold manager_call, get. unfold bind at 1. unfold bind at 1. unfold get_heap.
    rewrite Hnone. unfold ret at 1.
    unfold bind at 1. unfold bind at 1. by rewrite Hrec. }
  destruct Hmethod as [-> | ->]; [by rewrite Hs|by rewrite Hd].
Qed.

Lemma missing_method_throws_witness :
  ∃ CrudRecord : loc,
    ∀ rv,
      data_field (heap_of Edge.under_other.2) (VRef CrudRecord) "_record" rv →
      invoke Bench.lib 5 Edge.under_other.1 "delete" [] Edge.under_other.2 = Throw TypeError.
Proof.
  destruct (missing_method_throws Bench.lib 5 Bench.OtherWrapper [VRef Bench.fakeRecord]
              Bench.initial Edge.under_other.1 Edge.under_other.2)
    as (d & h0 & cr & h1 & actions & _ & Hthrow).
  - apply Bench_Record_plain.
  - vm_compute. reflexivity.
  - vm_compute. discriminate.
  - exists cr. intros rv Hrv. apply (Hthrow "delete" rv 3 []).
    + right. reflexivity.
    + vm_compute. reflexivity.
    + exact Hrv.
Defined.

(** A function object whose code is one of the two closures makes the
    manager's call, whatever it is called on. *)
Lemma closure_call F m w f fo manager CrudRecord this args :
  heap_of w !! f = Some fo →
  (callee fo = Some (CSave manager CrudRecord) →
   call F (S m) (VRef f) this args w =
     manager_call F m manager "save" CrudRecord (nth 0 args VUndef) w)
  ∧ (callee fo = Some (CDelete manager CrudRecord) →
     call F (S m) (VRef f) this args w =
       manager_call F m manager "delete" CrudRecord (nth 0 args VUndef) w).
Proof.
  intros Hf. split; intros Hc; simpl call; unfold bind at 1, read_object;
    by rewrite Hf, Hc.
Qed.

Lemma own_method_inv h t k f c :
  own_method h t k f c →
  ∃ ot fo wr en cf,
    h !! t = Some ot ∧ props ot !! k = Some (Data (VRef f) wr en cf)
    ∧ h !! f = Some fo ∧ callee fo = Some c.
Proof.
  unfold own_method, method_at. intros H.
  destruct (h !! t) as [ot|] eqn:Ht; [|done].
  destruct (props ot !! k) as [[[| | | | |f'] wr en cf|]|] eqn:Hk; try done.
  destruct (h !! f') as [fo|] eqn:Hf; [|done].
  destruct (callee fo) as [c'|] eqn:Hc; [|done].
  injection H as -> ->. by exists ot, fo, wr, en, cf.
Qed.

Lemma own_method_intro (h : heap) t k f c ot fo wr en cf :
  h !! t = Some ot → props ot !! k = Some (Data (VRef f) wr en cf) →
  h !! f = Some fo → callee fo = Some c →
  own_method h t k f c.
Proof. intros Ht Hk Hf Hc. unfold own_method, method_at. by rewrite Ht, Hk, Hf, Hc. Qed.

Lemma own_method_invoke F m w t k f c args :
  own_method (heap_of w) t k f c →
  invoke F (S m) (VRef t) k args w = call F (S m) (VRef f) (VRef t) args w.
Proof.
  intros (ot & fo & wr & en & cf & Ht & Hk & Hf & Hc)%own_method_inv.
  destruct (lookup_size_pos _ _ _ Ht) as [j Hj].
  unfold invoke, get. unfold bind at 1. unfold bind at 1. unfold get_heap.
  unfold get_property. rewrite Hj.
  by rewrite (find_prop_hit _ _ _ _ _ _ Ht Hk).
Qed.

Lemma own_method_kept F n env arguments w v w' t k f c :
  Record_plain F → Record_fresh F →
  foreign_keeps F t → foreign_keeps F f →
  useCrud F n env arguments w = Ok (v, w') →
  own_method (heap_of w) t k f c → own_method (heap_of w') t k f c.
Proof.
  intros HP HN Ht Hf H (ot & fo & wr & en & cf & Hot & Hk & Hfo & Hc)%own_method_inv.
  apply (own_method_intro _ _ _ _ _ ot fo wr en cf); try done.
  - by eapply (useCrud_keeps F n env arguments w v w' t).
  - by eapply (useCrud_keeps F n env arguments w v w' f).
Qed.

(** X14: a wrapper of an earlier render stays bound to the manager and the
    [Record] instance its closures captured.  When foreign code leaves the
    wrapper and its two functions alone, then after any later render,
    whatever the manager in context and the record then are, its [save] and
    [delete] still make the call on the manager and the instance they were
    created with. *)
Theorem earlier_wrapper_keeps_its_manager F n env arguments w v w' t save delete
    manager0 CrudRecord0 :
  Record_plain F → Record_fresh F →
  foreign_keeps F t → foreign_keeps F save → foreign_keeps F delete →
  own_method (heap_of w) t "save" save (CSave manager0 CrudRecord0) →
  own_method (heap_of w) t "delete" delete (CDelete manager0 CrudRecord0) →
  useCrud F n env arguments w = Ok (v, w') →
  ∀ m args,
    invoke F (S m) (VRef t) "save" args w' =
      manager_call F m manager0 "save" CrudRecord0 (nth 0 args VUndef) w'
    ∧ invoke F (S m) (VRef t) "delete" args w' =
      manager_call F m manager0 "delete" CrudRecord0 (nth 0 args VUndef) w'.
Proof.
  intros HP HN Ht Hs Hd Hsave Hdelete H m args.
  apply (own_method_kept _ _ _ _ _ _ _ _ _ _ _ HP HN Ht Hs H) in Hsave.
  apply (own_method_kept _ _ _ _ _ _ _ _ _ _ _ HP HN Ht Hd H) in Hdelete.
  rewrite (own_method_invoke _ _ _ _ _ _ _ _ Hsave).
  rewrite (own_method_invoke _ _ _ _ _ _ _ _ Hdelete).
  apply own_method_inv in Hsave as (_ & fo & _ & _ & _ & _ & _ & Hf & Hc).
  apply own_method_inv in Hdelete as (_ & go & _ & _ & _ & _ & _ & Hg & Hc').
  split.
  - by apply (closure_call F m w' save fo).
  - by apply (closure_call F m w' delete go).
Qed.

Lemma earlier_wrapper_keeps_its_manager_witness :
  invoke Bench.lib 5 (VRef 21%positive) "save" [VStr "options"] Edge.later.2 =
    manager_call Bench.lib 4 (VRef Bench.manager) "save" 18%positive (VStr "options")
      Edge.later.2
  ∧ invoke Bench.lib 5 (VRef 21%positive) "delete" [VStr "options"] Edge.later.2 =
    manager_call Bench.lib 4 (VRef Bench.manager) "delete" 18%positive (VStr "options")
      Edge.later.2.
Proof.
  refine (earlier_wrapper_keeps_its_manager Bench.lib 5 Bench.OtherWrapper
            [VRef Bench.fakeRecord] Bench.mutated.2 Edge.later.1 Edge.later.2
            21%positive 19%positive 20%positive (VRef Bench.manager) 18%positive
            Bench_Record_plain Bench_Record_fresh
            (Bench_keeps 21%positive _) (Bench_keeps 19%positive _) (Bench_keeps 20%positive _)
            _ _ _ 4 [VStr "options"]).
  - discriminate.
  - discriminate.
  - discriminate.
  - vm_compute. reflexivity.
  - vm_compute. reflexivity.
  - vm_compute. reflexivity.
Defined.

(** X15: the two methods do not use their receiver.  The functions a render
    stores under [save] and [delete] of the wrapper, called on any value
    whatever (detached, as in [onClick={record.save}], or on another
    object), make the same call on the manager in context with the
    instance's [_record] and the first argument. *)
Theorem methods_ignore_receiver F n env arguments w v w' :
  Record_plain F →
  useCrud F n env arguments w = Ok (v, w') →
  rebuilds w w' →
  ∃ wrapper CrudRecord save delete,
    v = VRef wrapper
    ∧ own_method (heap_of w') wrapper "save" save (CSave (CrudContext env) CrudRecord)
    ∧ own_method (heap_of w') wrapper "delete" delete (CDelete (CrudContext env) CrudRecord)
    ∧ ∀ m this args,
        call F (S m) (VRef save) this args w' =
          manager_call F m (CrudContext env) "save" CrudRecord (nth 0 args VUndef) w'
        ∧ call F (S m) (VRef delete) this args w' =
          manager_call F m (CrudContext env) "delete" CrudRecord (nth 0 args VUndef) w'.
Proof.
  intros HP H Hre.
  destruct (useCrud_rebuild _ _ _ _ _ _ _ HP H Hre)
    as (s & d & h0 & inst & h1 & actions & t & -> & HRec & Hwraps & _).
  destruct Hwraps as (oi & f & g & Hi & Hf & Hg & Ht & Hf' & Hg' & Hi' & Ht' & _).
  exists t, inst, f, g. repeat split.
  - eapply own_method_intro; [exact Ht'| |exact Hf'|done].
    simpl. rewrite lookup_insert_ne by done. apply lookup_insert_eq.
  - eapply own_method_intro; [exact Ht'| |exact Hg'|done].
    simpl. apply lookup_insert_eq.
  - by apply (closure_call F m w' f (function_object (CSave (CrudContext env) inst))).
  - by apply (closure_call F m w' g (function_object (CDelete (CrudContext env) inst))).
Qed.

Lemma methods_ignore_receiver_witness :
  ∃ save CrudRecord,
    own_method (heap_of Bench.mounted.2) 21%positive "save" save
      (CSave (VRef Bench.manager) CrudRecord)
    ∧ call Bench.lib 5 (VRef save) VUndef [VStr "options"] Bench.mounted.2 =
      manager_call Bench.lib 4 (VRef Bench.manager) "save" CrudRecord (VStr "options")
        Bench.mounted.2.
Proof.
  destruct (methods_ignore_receiver Bench.lib 5 Bench.Wrapper [VRef Bench.fakeRecord]
              Bench.initial (VRef 21%positive) Bench.mounted.2)
    as (t & cr & f & g & Hv & Hs & _ & Hcall).
  - apply Bench_Record_plain.
  - vm_compute. reflexivity.
  - vm_compute. discriminate.
  - injection Hv as <-. exists f, cr. split; [exact Hs|].
    exact (proj1 (Hcall 4 VUndef [VStr "options"])).
Defined.

Lemma size_two (h : heap) a b x y :
  h !! a = Some x → h !! b = Some y → a ≠ b → ∃ n, size h = S (S n).
Proof.
  intros Ha Hb Hne.
  rewrite <- (insert_delete_id h a x Ha).
  rewrite map_size_insert_None by apply lookup_delete_eq.
  destruct (lookup_size_pos (delete a h) b y) as [n ->]; [|by exists n].
  by rewrite lookup_delete_ne.
Qed.

(** X16: the wrapper carries the own properties of the [Record] instance and
    nothing of its prototype chain: the wrapper's prototype is
    [Object.prototype].  A property other than [save] and [delete] that the
    constructor did not give the instance as an own property (a method
    inherited from its class, for one) reads as [undefined] on the wrapper,
    unless [Object.prototype] has it. *)
Theorem wrapper_drops_inherited F n env arguments w v w' :
  Record_plain F →
  useCrud F n env arguments w = Ok (v, w') →
  rebuilds w w' →
  ∃ d h0 CrudRecord h1 actions constructed,
    Record_new F [nth 0 arguments VUndef; VRef d] h0 = Ok (CrudRecord, h1, actions)
    ∧ h1 !! CrudRecord = Some constructed
    ∧ ∀ k op m,
        k ≠ "save" → k ≠ "delete" →
        props constructed !! k = None →
        heap_of w' !! ObjectPrototype = Some op →
        proto op = VNull →
        props op !! k = None →
        get (call F m) v k w' = Ok (VUndef, w').
Proof.
  intros HP H Hre.
  destruct (useCrud_rebuild _ _ _ _ _ _ _ HP H Hre)
    as (s & d & h0 & inst & h1 & actions & t & -> & HRec & Hwraps & _).
  destruct Hwraps as (oi & f & g & Hi & Hf & Hg & Ht & Hf' & Hg' & Hi' & Ht' & _).
  exists d, h0, inst, h1, actions, oi. split; [exact HRec|]. split; [exact Hi|].
  intros k op m Hks Hkd Hk Hop Hnull Hopk.
  assert (Hne : t ≠ ObjectPrototype).
  { intros ->. rewrite Hop in Ht'. injection Ht' as ->. done. }
  destruct (size_two _ _ _ _ _ Ht' Hop Hne) as [j Hj].
  unfold get, bind, get_heap, get_property. rewrite Hj. simpl.
  rewrite Ht'. simpl. rewrite !lookup_insert_ne by done.
  rewrite Hk, Hop, Hopk, Hnull.
  by rewrite find_prop_null.
Qed.

Lemma wrapper_drops_inherited_witness :
  get (call Bench.lib 5) Bench.mounted.1 "commit" Bench.mounted.2
  = Ok (VUndef, Bench.mounted.2).
Proof.
  destruct (wrapper_drops_inherited Bench.lib 5 Bench.Wrapper [VRef Bench.fakeRecord]
              Bench.initial Bench.mounted.1 Bench.mounted.2)
    as (d & h0 & cr & h1 & actions & oc & HRec & Hc & Hget).
  - apply Bench_Record_plain.
  - vm_compute. reflexivity.
  - vm_compute. discriminate.
  - apply (Hget "commit" (Bench.intrinsic VNull) 5).
    + discriminate.
    + discriminate.
    + simpl in HRec. unfold Bench.new_Record in HRec.
      injection HRec as <- <- _. rewrite lookup_insert_eq in Hc. injection Hc as <-.
      reflexivity.
    + vm_compute. reflexivity.
    + reflexivity.
    + reflexivity.
Defined.
